(** * The unity model loader (ggml/examples/unity/unity_model_loader.cpp)

    A shallow embedding of the three operations of [unity_model_loader]:
    [load_hparams], [compute_context_size] and [tensors_alloc], and the
    properties the specification states about them.

    Conventions.
    - Platform: LP64, little-endian, two's complement ([int] has 32 bits,
      [void*] and [std::size_t] have 64).
    - Every C++ call is a state transformer returning an [outcome]: a normal
      return, a thrown exception, or undefined behaviour. The state reached
      is kept in all three cases, since the C++ code mutates through
      references and an exception does not roll anything back.
    - [unity_model_loader.h], which declares [unity_hparams], is absent. The
      fields are those [load_hparams] names, in that order; the width of each
      one is the parameter [sizeof]. A field is held as its object
      representation, the bytes [fin.read] stores. The fields the loader
      computes with (dimensions, layer and head counts) are read as signed
      integers of their width. *)

From Stdlib Require Import ZArith Lia Ascii.
From stdpp Require Import base decidable list strings pretty gmap functions.

(** ** Platform *)

Abbreviation byte := Byte.byte.

Definition INT_MAX : Z := 2 ^ 31 - 1.
Definition sizeof_pointer : nat := 8.
Definition SIZE_WIDTH : Z := 64.

(** Value of a little-endian byte string read as an unsigned integer. *)
Fixpoint le_unsigned (bs : list byte) : Z :=
  match bs with
  | [] => 0
  | b :: bs' => (Z.of_N (Byte.to_N b) + 256 * le_unsigned bs')%Z
  end.

(** The same bytes read as a two's complement integer of that width. *)
Definition le_signed (bs : list byte) : Z :=
  let w := (8 * Z.of_nat (length bs))%Z in
  let u := le_unsigned bs in
  if (2 * u <? 2 ^ w)%Z then u else (u - 2 ^ w)%Z.

Definition byte_of_Z (z : Z) : byte :=
  default Byte.x00 (Byte.of_N (Z.to_N (z mod 256))).

(** Object representation, on [n] bytes, of the integer [z]. *)
Fixpoint le_bytes (n : nat) (z : Z) : list byte :=
  match n with
  | O => []
  | S n' => byte_of_Z z :: le_bytes n' (z / 256)
  end.

(** Does [z] fit a signed integer type of [w] bits? *)
Definition fits_signed (w z : Z) : bool :=
  (- 2 ^ (w - 1) <=? z)%Z && (z <? 2 ^ (w - 1))%Z.

(** Conversion to [std::size_t]. *)
Definition to_size_t (z : Z) : Z := (z mod 2 ^ SIZE_WIDTH)%Z.

(** ** Outcomes of a call *)

Inductive exn :=
  | TruncatedInputError
  | OutOfArenaMemoryError
  | length_error.

Inductive outcome (A : Type) :=
  | Ok (a : A)
  | Throw (e : exn)
  | Undefined.
Arguments Ok {A} a.
Arguments Throw {A} e.
Arguments Undefined {A}.

Definition M (S A : Type) : Type := S → outcome A * S.

Definition ret {S A} (a : A) : M S A := λ s, (Ok a, s).
Definition throw {S A} (e : exn) : M S A := λ s, (Throw e, s).
Definition undefined {S A} : M S A := λ s, (Undefined, s).

Definition bind {S A B} (m : M S A) (k : A → M S B) : M S B :=
  λ s, match m s with
       | (Ok a, s') => k a s'
       | (Throw e, s') => (Throw e, s')
       | (Undefined, s') => (Undefined, s')
       end.

Definition get {S} : M S S := λ s, (Ok s, s).
Definition modify {S} (f : S → S) : M S unit := λ s, (Ok tt, f s).

Notation "'let*' x ':=' m 'in' k" := (bind m (λ x, k))
  (at level 10, x name, m at level 100, k at level 200, only parsing).
Notation "m ;;; k" := (bind m (λ _, k))
  (at level 100, k at level 200, right associativity, only parsing).

(** ** The input stream

    [std::ifstream] with its default exception mask: a failed extraction
    sets state bits and throws nothing. [rdbuf] holds the bytes not yet
    consumed. *)

Record ifstream := {
  rdbuf : list byte;
  eofbit : bool;
  failbit : bool;
}.

Definition good (fin : ifstream) : bool := negb (eofbit fin) && negb (failbit fin).

(** Number of bytes an unformatted [read] of [n] bytes extracts. *)
Definition gcount (n : nat) (fin : ifstream) : nat :=
  if good fin then n `min` length (rdbuf fin) else 0.

(** [fin.read(dest, n)], the object at [dest] afterwards: the extracted bytes
    overwrite its leading bytes, the rest keeps its value. *)
Definition read_object (n : nat) (dest : list byte) (fin : ifstream) : list byte :=
  take (gcount n fin) (rdbuf fin) ++ drop (gcount n fin) dest.

(** [fin.read(dest, n)], the stream afterwards: a stream that is not good
    extracts nothing and gets [failbit]; reaching the end before [n] bytes
    sets [eofbit] and [failbit]. *)
Definition read_stream (n : nat) (fin : ifstream) : ifstream :=
  if good fin then
    {| rdbuf := drop n (rdbuf fin);
       eofbit := bool_decide (length (rdbuf fin) < n);
       failbit := bool_decide (length (rdbuf fin) < n) |}
  else
    {| rdbuf := rdbuf fin; eofbit := eofbit fin; failbit := true |}.

(** The bytes a stream can still deliver: none once it is not good. *)
Definition avail (fin : ifstream) : list byte :=
  if good fin then rdbuf fin else [].

(** [dest] with its leading bytes replaced by [src]. *)
Definition overwrite (src dest : list byte) : list byte :=
  src ++ drop (length src) dest.

(** ** The hyperparameter record *)

Inductive hfield :=
  | model_dim
  | w2v2_encoder_config__model_dim
  | w2v2_encoder_config__max_seq_len
  | w2v2_encoder_config__feature_dim
  | w2v2_encoder_config__use_fbank
  | w2v2_encoder_config__first_pass_dropout_p
  | w2v2_encoder_config__layer_norm_features
  | w2v2_encoder_config__feature_extractor_bias
  | w2v2_encoder_config__feature_extractor_layer_norm_convs
  | w2v2_encoder_config__feature_grad_scale
  | w2v2_encoder_config__num_fbank_channels
  | w2v2_encoder_config__fbank_stride
  | w2v2_encoder_config__sample_fbank_every_k
  | w2v2_encoder_config__pos_encoder_depth
  | w2v2_encoder_config__pos_conv_kernel_size
  | w2v2_encoder_config__num_pos_conv_groups
  | w2v2_encoder_config__use_conformer
  | w2v2_encoder_config__num_encoder_layers
  | w2v2_encoder_config__num_encoder_attn_heads
  | w2v2_encoder_config__ffn_inner_dim
  | w2v2_encoder_config__dropout_p
  | w2v2_encoder_config__attn_dropout_p
  | w2v2_encoder_config__layer_drop_p
  | w2v2_encoder_config__norm_order
  | w2v2_encoder_config__depthwise_conv_kernel_size
  | nllb_config__model_dim
  | nllb_config__max_seq_len
  | nllb_config__vocabulary_size
  | nllb_config__pad_idx
  | nllb_config__num_encoder_layers
  | nllb_config__num_decoder_layers
  | nllb_config__num_encoder_attn_heads
  | nllb_config__num_decoder_attn_heads
  | nllb_config__ffn_inner_dim
  | nllb_config__dropout_p
  | t2u_config__model_dim
  | t2u_config__unit_max_seq_len
  | t2u_config__unit_vocabulary_size
  | t2u_config__unit_pad_idx
  | t2u_config__num_encoder_layers
  | t2u_config__num_decoder_layers
  | t2u_config__num_encoder_attn_heads
  | t2u_config__num_decoder_attn_heads
  | t2u_config__ffn_inner_dim
  | t2u_config__dropout_p
  | use_text_encoder
  | use_conformer_adaptor
  | num_adaptor_layers
  | adaptor_kernel_size
  | adaptor_stride
  | adaptor_layer_norm
  | adaptor_dropout_p.

Global Instance hfield_eq_dec : EqDecision hfield.
Proof. solve_decision. Defined.

(** [unity_hparams]: each field with its object representation. *)
Abbreviation unity_hparams := (hfield → list byte).

(** ** The tensor engine *)

(** Modelled from the spec: the ggml context, which belongs to the tensor
    engine (absent). "Arena: a single fixed-capacity memory region from which
    all tensor storage is carved; no individual tensor is released
    independently": a capacity and the bytes handed out so far. *)
Record ggml_context := {
  mem_size : Z;
  used : Z;
}.

(** Modelled from the spec: a tensor of the engine (absent), "shape: ordered
    sequence of dimension sizes, element type, storage: byte region inside
    the arena". The element type is always F32 here; [data] is the offset of
    the storage in the arena. *)
Record ggml_tensor := {
  ne : list Z;
  data : Z;
}.

Definition GGML_TYPE_F32_size : Z := 4.

Definition ggml_nelements (shape : list Z) : Z := foldr Z.mul 1%Z shape.

(** Modelled from the spec: the arena bytes of a tensor of the engine
    (absent), "shape product x element size". The "fixed per-tensor metadata
    overhead" of the engine is left out, so the sizes here are lower bounds of
    what the engine carves. *)
Definition ggml_nbytes (shape : list Z) : Z :=
  (GGML_TYPE_F32_size * ggml_nelements shape)%Z.

(** Modelled from the spec: the shapes the engine (absent) can allocate;
    "an out-of-range dimension is only caught later, indirectly, by
    allocation failure". *)
Definition valid_shape (shape : list Z) : bool :=
  forallb (λ d, (0 <=? d)%Z) shape.

(** ** The model instance *)

(** Modelled from the spec: the sub-module structs of [fairseq2.h] (absent).
    An architecture struct holds "typed references into the Tensor Table";
    the reference is null in a default-constructed object. *)
Record MultiheadAttention := {
  mha_num_heads : Z;
  mha_weight : option ggml_tensor;
}.

Record LayerNorm := {
  ln_weight : option ggml_tensor;
}.

(** Modelled from the spec: [TransformerDecoderLayer] and
    [TransformerDecoder] of [fairseq2.h] (absent), with the members
    [tensors_alloc] accesses: "one structural unit comprising a
    self-attention sub-module and an associated normalization sub-module; a
    decoder owns an ordered sequence of these". *)
Record TransformerDecoderLayer := {
  self_attn : MultiheadAttention;
  self_attn_norm : LayerNorm;
}.

Record TransformerDecoder := {
  layers : list TransformerDecoderLayer;
}.

(** [struct UnityArch]. *)
Record UnityArch := {
  text_decoder : TransformerDecoder;
}.

(** Modelled from the spec: [fairseq2_model] of [fairseq2.h] (absent), with
    the members the loader accesses. The "Model Instance: owns the
    Hyperparameter Table, the Tensor Arena, the Tensor Table, and an opaque
    architecture-specific struct". The casts [(unity_hparams&)model.hparams]
    and [(UnityArch&)model.arch] read these members at the type the loader
    gives them. *)
Record fairseq2_model := {
  hparams : unity_hparams;
  arch : UnityArch;
  ctx : ggml_context;
  tensors : gmap string ggml_tensor;
}.

(** The value-initialized layer [std::vector<TransformerDecoderLayer>(n)]
    fills the vector with. *)
Definition default_layer : TransformerDecoderLayer :=
  {| self_attn := {| mha_num_heads := 0; mha_weight := None |};
     self_attn_norm := {| ln_weight := None |} |}.

Definition set_hparams (h : unity_hparams) (model : fairseq2_model) : fairseq2_model :=
  {| hparams := h; arch := arch model; ctx := ctx model; tensors := tensors model |}.

Definition set_layers (ls : list TransformerDecoderLayer) (model : fairseq2_model)
  : fairseq2_model :=
  {| hparams := hparams model;
     arch := {| text_decoder := {| layers := ls |} |};
     ctx := ctx model; tensors := tensors model |}.

(** Modelled from the spec: what an [*_init] helper of [fairseq2.cpp]
    (absent) does with one tensor: it "allocates each tensor from the arena"
    and "registers the name->tensor pair in the Tensor Table"; "if the arena
    runs out of space, allocation fails with an OutOfArenaMemoryError". *)
Definition new_named_tensor (name : string) (shape : list Z)
  : M fairseq2_model ggml_tensor :=
  λ model,
    let c := ctx model in
    if valid_shape shape && (used c + ggml_nbytes shape <=? mem_size c)%Z then
      let t := {| ne := shape; data := used c |} in
      (Ok t,
       {| hparams := hparams model; arch := arch model;
          ctx := {| mem_size := mem_size c; used := (used c + ggml_nbytes shape)%Z |};
          tensors := <[name := t]> (tensors model) |})
    else (Throw OutOfArenaMemoryError, model).

(** Modelled from the spec: [MultiheadAttention_init(self, model, prefix,
    model_dim, num_heads)] of [fairseq2.cpp] (absent). It creates the tensor
    of the attention block under the name it is given, "with shapes
    consistent with model_dim and head count" (here the square projection of
    [model_dim], shared by [num_heads] heads), and returns the initialized
    [self]. *)
Definition MultiheadAttention_init (name : string) (model_dim num_heads : Z)
  : M fairseq2_model MultiheadAttention :=
  let* w := new_named_tensor name [model_dim; model_dim] in
  ret {| mha_num_heads := num_heads; mha_weight := Some w |}.

(** Modelled from the spec: [LayerNorm_init(self, model, prefix, dim)] of
    [fairseq2.cpp] (absent): one tensor of [dim] elements under the given
    name. *)
Definition LayerNorm_init (name : string) (dim : Z) : M fairseq2_model LayerNorm :=
  let* w := new_named_tensor name [dim] in
  ret {| ln_weight := Some w |}.

Definition PTRDIFF_MAX : Z := 2 ^ 63 - 1.

(** [std::vector<T>::max_size()] for elements of [elem_size] bytes. *)
Definition vector_max_size (elem_size : Z) : Z := (PTRDIFF_MAX / elem_size)%Z.

(** The counts [std::vector<T>(n)] accepts. The count is converted to
    [size_type]: a negative one becomes a value above [max_size()], like a
    positive one that is too large. *)
Definition vector_length_ok (elem_size n : Z) : bool :=
  (0 <=? n)%Z && (n <=? vector_max_size elem_size)%Z.

(** [std::vector<T>(n)] with a signed [n], for elements of [elem_size] bytes:
    a count the vector cannot have makes the constructor throw
    [std::length_error] before anything is built. Below [max_size()] the
    outcome of the allocation itself ([std::bad_alloc] when the free store
    cannot serve it) depends on the machine and is not modelled; no
    property below relies on the construction of more than [INT_MAX]
    elements succeeding. *)
Definition vector_new {S A} (elem_size : Z) (n : Z) (x : A) : M S (list A) :=
  if vector_length_ok elem_size n
  then ret (replicate (Z.to_nat n) x)
  else throw length_error.

(** Modelled from the spec: [sizeof(TransformerDecoderLayer)], a struct of
    [fairseq2.h] (absent), as the sub-module structs are modelled above: a
    head count padded to eight bytes and one tensor reference for the
    attention, one tensor reference for the normalization. *)
Definition sizeof_TransformerDecoderLayer : Z := 24.

(** [max_size()] of the decoder's vector of layers. *)
Definition layers_max_size : Z := vector_max_size sizeof_TransformerDecoderLayer.

(** [std::to_string(int)]. *)
Definition to_string (i : Z) : string := pretty i.

(** The fields of [unity_hparams] in the order [load_hparams] reads them. *)
Definition field_order : list hfield :=
  [ model_dim; w2v2_encoder_config__model_dim; w2v2_encoder_config__max_seq_len;
    w2v2_encoder_config__feature_dim; w2v2_encoder_config__use_fbank;
    w2v2_encoder_config__first_pass_dropout_p; w2v2_encoder_config__layer_norm_features;
    w2v2_encoder_config__feature_extractor_bias;
    w2v2_encoder_config__feature_extractor_layer_norm_convs;
    w2v2_encoder_config__feature_grad_scale; w2v2_encoder_config__num_fbank_channels;
    w2v2_encoder_config__fbank_stride; w2v2_encoder_config__sample_fbank_every_k;
    w2v2_encoder_config__pos_encoder_depth; w2v2_encoder_config__pos_conv_kernel_size;
    w2v2_encoder_config__num_pos_conv_groups; w2v2_encoder_config__use_conformer;
    w2v2_encoder_config__num_encoder_layers; w2v2_encoder_config__num_encoder_attn_heads;
    w2v2_encoder_config__ffn_inner_dim; w2v2_encoder_config__dropout_p;
    w2v2_encoder_config__attn_dropout_p; w2v2_encoder_config__layer_drop_p;
    w2v2_encoder_config__norm_order; w2v2_encoder_config__depthwise_conv_kernel_size;
    nllb_config__model_dim; nllb_config__max_seq_len; nllb_config__vocabulary_size;
    nllb_config__pad_idx; nllb_config__num_encoder_layers; nllb_config__num_decoder_layers;
    nllb_config__num_encoder_attn_heads; nllb_config__num_decoder_attn_heads;
    nllb_config__ffn_inner_dim; nllb_config__dropout_p;
    t2u_config__model_dim; t2u_config__unit_max_seq_len; t2u_config__unit_vocabulary_size;
    t2u_config__unit_pad_idx; t2u_config__num_encoder_layers; t2u_config__num_decoder_layers;
    t2u_config__num_encoder_attn_heads; t2u_config__num_decoder_attn_heads;
    t2u_config__ffn_inner_dim; t2u_config__dropout_p;
    use_text_encoder; use_conformer_adaptor; num_adaptor_layers; adaptor_kernel_size;
    adaptor_stride; adaptor_layer_norm; adaptor_dropout_p ].

(** ** The loader *)

Section unity_model_loader.

(** [sizeof(hparams.f)] for each field of [unity_hparams]. *)
Variable sizeof : hfield → nat.

(** One [fin.read] of [sizeof(hparams.f)] bytes into the member [f] of the
    record [(unity_hparams&)model.hparams]. *)
Definition read_hparam (f : hfield) : M (fairseq2_model * ifstream) unit :=
  λ s,
    (Ok tt,
     (set_hparams (<[f := read_object (sizeof f) (hparams s.1 f) s.2]> (hparams s.1)) s.1,
      read_stream (sizeof f) s.2)).

Definition load_hparams : M (fairseq2_model * ifstream) unit :=
  read_hparam model_dim ;;;
  read_hparam w2v2_encoder_config__model_dim ;;;
  read_hparam w2v2_encoder_config__max_seq_len ;;;
  read_hparam w2v2_encoder_config__feature_dim ;;;
  read_hparam w2v2_encoder_config__use_fbank ;;;
  read_hparam w2v2_encoder_config__first_pass_dropout_p ;;;
  read_hparam w2v2_encoder_config__layer_norm_features ;;;
  read_hparam w2v2_encoder_config__feature_extractor_bias ;;;
  read_hparam w2v2_encoder_config__feature_extractor_layer_norm_convs ;;;
  read_hparam w2v2_encoder_config__feature_grad_scale ;;;
  read_hparam w2v2_encoder_config__num_fbank_channels ;;;
  read_hparam w2v2_encoder_config__fbank_stride ;;;
  read_hparam w2v2_encoder_config__sample_fbank_every_k ;;;
  read_hparam w2v2_encoder_config__pos_encoder_depth ;;;
  read_hparam w2v2_encoder_config__pos_conv_kernel_size ;;;
  read_hparam w2v2_encoder_config__num_pos_conv_groups ;;;
  read_hparam w2v2_encoder_config__use_conformer ;;;
  read_hparam w2v2_encoder_config__num_encoder_layers ;;;
  read_hparam w2v2_encoder_config__num_encoder_attn_heads ;;;
  read_hparam w2v2_encoder_config__ffn_inner_dim ;;;
  read_hparam w2v2_encoder_config__dropout_p ;;;
  read_hparam w2v2_encoder_config__attn_dropout_p ;;;
  read_hparam w2v2_encoder_config__layer_drop_p ;;;
  read_hparam w2v2_encoder_config__norm_order ;;;
  read_hparam w2v2_encoder_config__depthwise_conv_kernel_size ;;;
  read_hparam nllb_config__model_dim ;;;
  read_hparam nllb_config__max_seq_len ;;;
  read_hparam nllb_config__vocabulary_size ;;;
  read_hparam nllb_config__pad_idx ;;;
  read_hparam nllb_config__num_encoder_layers ;;;
  read_hparam nllb_config__num_decoder_layers ;;;
  read_hparam nllb_config__num_encoder_attn_heads ;;;
  read_hparam nllb_config__num_decoder_attn_heads ;;;
  read_hparam nllb_config__ffn_inner_dim ;;;
  read_hparam nllb_config__dropout_p ;;;
  read_hparam t2u_config__model_dim ;;;
  read_hparam t2u_config__unit_max_seq_len ;;;
  read_hparam t2u_config__unit_vocabulary_size ;;;
  read_hparam t2u_config__unit_pad_idx ;;;
  read_hparam t2u_config__num_encoder_layers ;;;
  read_hparam t2u_config__num_decoder_layers ;;;
  read_hparam t2u_config__num_encoder_attn_heads ;;;
  read_hparam t2u_config__num_decoder_attn_heads ;;;
  read_hparam t2u_config__ffn_inner_dim ;;;
  read_hparam t2u_config__dropout_p ;;;
  read_hparam use_text_encoder ;;;
  read_hparam use_conformer_adaptor ;;;
  read_hparam num_adaptor_layers ;;;
  read_hparam adaptor_kernel_size ;;;
  read_hparam adaptor_stride ;;;
  read_hparam adaptor_layer_norm ;;;
  read_hparam adaptor_dropout_p.

(** The same reads, driven by a list of fields. *)
Fixpoint read_fields (fs : list hfield) : M (fairseq2_model * ifstream) unit :=
  match fs with
  | [] => ret tt
  | f :: fs' =>
      match fs' with
      | [] => read_hparam f
      | _ :: _ => read_hparam f ;;; read_fields fs'
      end
  end.

(** The bytes the hyperparameter section of a checkpoint occupies. *)
Definition hparams_size : nat := sum_list (sizeof <$> field_order).

(** The serialized form of a table, following the spec's words: the fields
    "in the exact fixed order matching the serialization", "with no
    separators, no field tags". *)
Definition serialize_hparams (h : unity_hparams) : list byte :=
  concat (h <$> field_order).

(** A table whose every field has the width of its type. *)
Definition wf_hparams (h : unity_hparams) : Prop := ∀ f, length (h f) = sizeof f.

(** [compute_context_size(void* raw_hparams)].

    The parameter is a pointer, and [(unity_hparams&)raw_hparams] is a
    [reinterpret_cast] of the lvalue [raw_hparams] itself: the local [hparams]
    is copied from the storage of the pointer variable, not from the table it
    points to. Its first member, [model_dim], is therefore the leading bytes
    of the object representation of the pointer; [frame] is the memory that
    follows the parameter, which a member wider than the pointer runs into.
    The product is computed in the promoted type of [model_dim] (signed
    overflow is undefined), then converted to [std::size_t]. *)
Definition compute_context_size (raw_hparams : Z) (frame : list byte) : outcome Z :=
  let hparams_model_dim :=
    le_signed (take (sizeof model_dim) (le_bytes sizeof_pointer raw_hparams ++ frame)) in
  let w := (8 * Z.of_nat (sizeof model_dim `max` 4))%Z in
  if fits_signed w (hparams_model_dim * 1024) then
    if fits_signed w (hparams_model_dim * 1024 * 100) then
      Ok (to_size_t (hparams_model_dim * 1024 * 100))
    else Undefined
  else Undefined.

(** One iteration of the loop of [tensors_alloc], for index [i]; [ls] is the
    local vector [layers]. *)
Definition layer_body (model_dim num_heads : Z) (i : Z)
    (ls : list TransformerDecoderLayer)
  : M fairseq2_model (list TransformerDecoderLayer) :=
  let prefix := "text_decoder.layers." +:+ to_string i in
  let* a := MultiheadAttention_init (prefix +:+ "self_attn") model_dim num_heads in
  let ls := alter (λ l, {| self_attn := a; self_attn_norm := self_attn_norm l |})
                  (Z.to_nat i) ls in
  let* n := LayerNorm_init (prefix +:+ "self_attn_norm") model_dim in
  let ls := alter (λ l, {| self_attn := self_attn l; self_attn_norm := n |})
                  (Z.to_nat i) ls in
  ret ls.

(** The loop, with [k] iterations left from index [i]. The counter is an
    [int]: incrementing it past [INT_MAX] is undefined. *)
Fixpoint layers_loop (model_dim num_heads : Z) (k : nat) (i : Z)
    (ls : list TransformerDecoderLayer)
  : M fairseq2_model (list TransformerDecoderLayer) :=
  match k with
  | O => ret ls
  | S k' =>
      let* ls := layer_body model_dim num_heads i ls in
      if (i =? INT_MAX)%Z then undefined
      else layers_loop model_dim num_heads k' (i + 1) ls
  end.

(** [tensors_alloc], returning the final value of its local vector [layers]
    as well, which the C++ function drops on return. The locals [hparams] and
    [tensors] are copies ([auto]), [arch] is a reference ([auto&]): the
    assignment to [arch.text_decoder.layers] reaches the model, and [layers]
    is then copied from it. The frontend and final layer-norm statements are
    comments in the source and have no counterpart here. *)
Definition tensors_alloc_layers : M fairseq2_model (list TransformerDecoderLayer) :=
  let* model := get in
  let hparams := hparams model in
  let tensors := tensors model in
  let vocab_size := le_signed (hparams nllb_config__vocabulary_size) in
  let model_dim := le_signed (hparams nllb_config__model_dim) in
  let n_layers := le_signed (hparams nllb_config__num_decoder_layers) in
  let* v := vector_new sizeof_TransformerDecoderLayer n_layers default_layer in
  modify (set_layers v) ;;;
  let* model := get in
  let layers := layers (text_decoder (arch model)) in
  let num_heads := le_signed (hparams nllb_config__num_decoder_attn_heads) in
  layers_loop model_dim num_heads (Z.to_nat n_layers) 0 layers.

Definition tensors_alloc : M fairseq2_model unit :=
  tensors_alloc_layers ;;; ret tt.

(** The names the pass hands to the [*_init] helpers for layer [i]. *)
Definition self_attn_name (i : Z) : string :=
  ("text_decoder.layers." +:+ to_string i) +:+ "self_attn".

Definition self_attn_norm_name (i : Z) : string :=
  ("text_decoder.layers." +:+ to_string i) +:+ "self_attn_norm".

Definition layer_names (i : Z) : list string :=
  [self_attn_name i; self_attn_norm_name i].

(** The names of a pass over the layers [i], ..., [i + k - 1], in order. *)
Definition names_from (i : Z) (k : nat) : list string :=
  seqZ i (Z.of_nat k) ≫= layer_names.

Definition registered_names (n_layers : Z) : list string :=
  names_from 0 (Z.to_nat n_layers).

(** A layer whose two sub-modules have been initialized. *)
Definition initialized (l : TransformerDecoderLayer) : Prop :=
  is_Some (mha_weight (self_attn l)) ∧ is_Some (ln_weight (self_attn_norm l)).

(** Arena bytes the modelled helpers request for one layer, and for a pass
    over all the layers of a table. *)
Definition layer_bytes (model_dim : Z) : Z :=
  (ggml_nbytes [model_dim; model_dim] + ggml_nbytes [model_dim])%Z.

(** Arena bytes of [c] whole layers, plus those of the attention tensor of
    one more layer when [half] is set. *)
Definition carved_bytes (model_dim : Z) (c : nat) (half : bool) : Z :=
  (Z.of_nat c * layer_bytes model_dim
   + if half then ggml_nbytes [model_dim; model_dim] else 0)%Z.

Definition requested_bytes (h : unity_hparams) : Z :=
  (le_signed (h nllb_config__num_decoder_layers)
   * layer_bytes (le_signed (h nllb_config__model_dim)))%Z.

End unity_model_loader.

(** ** Example inputs *)

(** A layout in which every field is a 64-bit scalar. *)
Definition sizeof_q : hfield → nat := λ _, 8.

Definition const_hparams (z : Z) : unity_hparams := λ _, le_bytes 8 z.

(** Two decoder layers of dimension 512 with 8 heads. *)
Definition example_hparams : unity_hparams :=
  <[nllb_config__num_decoder_layers := le_bytes 8 2]>
    (<[nllb_config__model_dim := le_bytes 8 512]>
       (<[nllb_config__num_decoder_attn_heads := le_bytes 8 8]>
          (<[model_dim := le_bytes 8 1024]> (const_hparams 0)))).

(** A model as the driver hands it to the loader: nothing built yet. *)
Definition new_model (h : unity_hparams) (arena : Z) : fairseq2_model :=
  {| hparams := h;
     arch := {| text_decoder := {| layers := [] |} |};
     ctx := {| mem_size := arena; used := 0 |};
     tensors := ∅ |}.

Definition example_model : fairseq2_model := new_model example_hparams (4 * 1024 * 1024).

(** The local vector and the model [tensors_alloc] ends with on the example. *)
Definition example_layers : list TransformerDecoderLayer :=
  match (tensors_alloc_layers example_model).1 with
  | Ok ls => ls
  | _ => []
  end.

Definition example_after : fairseq2_model := (tensors_alloc_layers example_model).2.

(** Twenty-four decoder layers of dimension 512. *)
Definition deep_hparams : unity_hparams :=
  <[nllb_config__num_decoder_layers := le_bytes 8 24]> example_hparams.

Definition deep_model : fairseq2_model := new_model deep_hparams (32 * 1024 * 1024).

(** A large decoder: 256 layers of dimension 32768 with 64 heads. *)
Definition large_hparams : unity_hparams :=
  <[nllb_config__num_decoder_layers := le_bytes 8 256]>
    (<[nllb_config__model_dim := le_bytes 8 32768]>
       (<[nllb_config__num_decoder_attn_heads := le_bytes 8 64]>
          (<[model_dim := le_bytes 8 32768]> (const_hparams 0)))).

(** Two addresses of the heap of a process, 2 KiB apart. *)
Definition address_a : Z := 6299664.
Definition address_b : Z := 6301712.

(** A freshly opened stream over the bytes [bs]. *)
Definition open_stream (bs : list byte) : ifstream :=
  {| rdbuf := bs; eofbit := false; failbit := false |}.

(** A checkpoint cut 211 bytes into the hyperparameter section, that is
    3 bytes into the 27th field. *)
Definition truncated_stream : ifstream :=
  open_stream (take 211 (serialize_hparams (const_hparams 0))).

(** ** Layout of the hyperparameter section *)

(** Offset of the first read of [f] in a pass that reads the fields [fs]: the
    widths of the fields read before it. *)
Fixpoint offset_in (sizeof : hfield → nat) (fs : list hfield) (f : hfield) : nat :=
  match fs with
  | [] => 0
  | g :: fs' => if decide (g = f) then 0 else sizeof g + offset_in sizeof fs' f
  end.

(** Offset of the field [f] in the hyperparameter section. *)
Definition field_offset (sizeof : hfield → nat) (f : hfield) : nat :=
  offset_in sizeof field_order f.

(** A stream after a failed extraction: same buffer, [failbit] set. *)
Definition set_failbit (fin : ifstream) : ifstream :=
  {| rdbuf := rdbuf fin; eofbit := eofbit fin; failbit := true |}.

(** The names with a dot between the layer index and the suffix, the form
    the commented-out names of [tensors_alloc] have. *)
Definition dotted_self_attn_name (i : Z) : string :=
  ("text_decoder.layers." +:+ to_string i) +:+ ".self_attn".

Definition dotted_self_attn_norm_name (i : Z) : string :=
  ("text_decoder.layers." +:+ to_string i) +:+ ".self_attn_norm".

(** ** Further example inputs *)

(** A stream on which an earlier extraction has failed. *)
Definition failed_stream : ifstream :=
  {| rdbuf := serialize_hparams example_hparams; eofbit := true; failbit := true |}.

(** A table whose decoder layer count is -1. *)
Definition negative_hparams : unity_hparams :=
  <[nllb_config__num_decoder_layers := le_bytes 8 (-1)]> example_hparams.

(** A model that already went through a pass over the example table. *)
Definition stale_model : fairseq2_model :=
  set_hparams (const_hparams 0) example_after.

(** * Properties of [load_hparams] *)

Section load_hparams_properties.

Variable sizeof : hfield → nat.

Lemma load_hparams_read_fields :
  load_hparams sizeof = read_fields sizeof field_order.
Proof. unfold load_hparams, field_order. cbn [read_fields]. exact eq_refl. Qed.

Lemma field_order_NoDup : NoDup field_order.
Proof. apply (bool_decide_unpack _). vm_compute. reflexivity. Qed.

Lemma field_order_complete (f : hfield) : f ∈ field_order.
Proof. destruct f; apply (bool_decide_unpack _); vm_compute; reflexivity. Qed.

(** *** One [read] *)

Lemma read_object_overwrite n dest fin :
  read_object n dest fin = overwrite (take n (avail fin)) dest.
Proof.
  unfold read_object, overwrite, gcount, avail.
  destruct (good fin); simpl; [|by rewrite take_nil].
  assert (E : take (n `min` length (rdbuf fin)) (rdbuf fin) = take n (rdbuf fin)).
  { destruct (decide (n ≤ length (rdbuf fin))).
    - by rewrite Nat.min_l.
    - rewrite Nat.min_r by lia. by rewrite !take_ge by lia. }
  by rewrite E, length_take.
Qed.

Lemma avail_read_stream n fin :
  avail (read_stream n fin) = drop n (avail fin).
Proof.
  unfold avail, read_stream, good.
  destruct (eofbit fin), (failbit fin); simpl; try by rewrite drop_nil.
  case_bool_decide; simpl; [|done].
  by rewrite drop_ge by lia.
Qed.

Lemma good_read_stream n fin :
  good (read_stream n fin) = good fin && bool_decide (n ≤ length (avail fin)).
Proof.
  unfold avail, read_stream, good.
  destruct (eofbit fin), (failbit fin); simpl; try done.
  repeat case_bool_decide; simpl; try done; lia.
Qed.

Lemma bits_read_stream n fin :
  eofbit fin = failbit fin → eofbit (read_stream n fin) = failbit (read_stream n fin).
Proof.
  unfold read_stream, good. destruct (eofbit fin), (failbit fin); simpl; done.
Qed.

Lemma length_overwrite src dest :
  length src ≤ length dest → length (overwrite src dest) = length dest.
Proof. unfold overwrite. rewrite length_app, length_drop. lia. Qed.

Lemma overwrite_take_app n t a d1 d2 :
  length d1 = n →
  overwrite (take (n + t) a) (d1 ++ d2)
  = overwrite (take n a) d1 ++ overwrite (take t (drop n a)) d2.
Proof.
  intros Hn. unfold overwrite.
  destruct (decide (n ≤ length a)) as [Hle|Hgt].
  - rewrite <- (take_take_drop a n t).
    rewrite length_app, !length_take, length_drop.
    rewrite Nat.min_l by done.
    rewrite drop_app_ge by lia.
    rewrite (drop_ge d1) by lia.
    rewrite <- !app_assoc. simpl.
    do 3 f_equal. lia.
  - rewrite !take_ge by lia.
    rewrite (drop_ge a) by lia. rewrite take_nil. simpl.
    rewrite drop_app_le by lia. by rewrite <- app_assoc.
Qed.

(** *** The whole pass *)

Lemma read_fields_cons f fs s :
  read_fields sizeof (f :: fs) s = (read_hparam sizeof f ;;; read_fields sizeof fs) s.
Proof. by destruct fs. Qed.

Lemma concat_fields_ext (h1 h2 : unity_hparams) fs :
  (∀ g, g ∈ fs → h1 g = h2 g) → concat (h1 <$> fs) = concat (h2 <$> fs).
Proof.
  intros E. f_equal. apply list_fmap_ext. intros i g Hg. apply E.
  by eapply list_elem_of_lookup_2.
Qed.

(** Reading the fields [fs] replaces the leading bytes of their serialized
    image by what the stream can deliver, and nothing else. *)
Lemma read_fields_spec fs :
  NoDup fs → ∀ m fin,
  (∀ f, f ∈ fs → length (hparams m f) = sizeof f) →
  ∃ m' fin',
    read_fields sizeof fs (m, fin) = (Ok tt, (m', fin')) ∧
    arch m' = arch m ∧ ctx m' = ctx m ∧ tensors m' = tensors m ∧
    (∀ g, g ∉ fs → hparams m' g = hparams m g) ∧
    (∀ g, length (hparams m' g) = length (hparams m g)) ∧
    concat (hparams m' <$> fs)
    = overwrite (take (sum_list (sizeof <$> fs)) (avail fin)) (concat (hparams m <$> fs)) ∧
    avail fin' = drop (sum_list (sizeof <$> fs)) (avail fin) ∧
    good fin' = good fin && bool_decide (sum_list (sizeof <$> fs) ≤ length (avail fin)) ∧
    (eofbit fin = failbit fin → eofbit fin' = failbit fin').
Proof.
  induction 1 as [|f fs Hf Hnd IH]; intros m fin Hlen.
  - exists m, fin. simpl. repeat split; try done.
    by rewrite andb_true_r.
  - rewrite read_fields_cons. unfold bind at 1. unfold read_hparam at 1.
    cbn [fst snd].
    set (o := read_object (sizeof f) (hparams m f) fin).
    set (m1 := set_hparams (<[f:=o]> (hparams m)) m).
    set (fin1 := read_stream (sizeof f) fin).
    assert (Ho : o = overwrite (take (sizeof f) (avail fin)) (hparams m f))
      by apply read_object_overwrite.
    assert (Hlo : length o = length (hparams m f)).
    { rewrite Ho. apply length_overwrite. rewrite length_take.
      rewrite (Hlen f) by left. lia. }
    assert (Hne : ∀ g, g ≠ f → hparams m1 g = hparams m g).
    { intros g Hg. unfold m1, set_hparams. cbn [hparams].
      by rewrite fn_lookup_insert_ne. }
    assert (Heq : hparams m1 f = o).
    { unfold m1, set_hparams. cbn [hparams]. by rewrite fn_lookup_insert. }
    destruct (IH m1 fin1) as (m' & fin' & Hrun & Ha & Hc & Ht & Hout & Hl & Hcat & Hav & Hgood & Hbits).
    { intros g Hg. rewrite Hne by (intros ->; done). apply Hlen. by right. }
    exists m', fin'. rewrite Hrun.
    split; [done|]. split; [by rewrite Ha|]. split; [by rewrite Hc|].
    split; [by rewrite Ht|].
    split.
    { intros g Hg. apply not_elem_of_cons in Hg as [Hg1 Hg2].
      rewrite Hout by done. by apply Hne. }
    split.
    { intros g. rewrite Hl. destruct (decide (g = f)) as [->|Hgf].
      - by rewrite Heq.
      - by rewrite Hne. }
    split.
    { change (sum_list (sizeof <$> f :: fs)) with (sizeof f + sum_list (sizeof <$> fs)).
      rewrite !fmap_cons. simpl concat.
      rewrite (overwrite_take_app (sizeof f)) by (apply Hlen; left).
      rewrite Hout by done. rewrite Heq, Ho. f_equal.
      rewrite Hcat. unfold fin1. rewrite avail_read_stream. f_equal.
      apply concat_fields_ext. intros g Hg. apply Hne. by intros ->. }
    split.
    { rewrite Hav. unfold fin1. rewrite avail_read_stream, drop_drop. done. }
    split; [|intros E; apply Hbits; by apply bits_read_stream].
    rewrite Hgood. unfold fin1. rewrite good_read_stream, avail_read_stream, length_drop.
    change (sum_list (sizeof <$> f :: fs)) with (sizeof f + sum_list (sizeof <$> fs)).
    destruct (good fin); simpl; [|done].
    repeat case_bool_decide; simpl; try done; exfalso; lia.
Qed.

Lemma length_concat_fields (h : unity_hparams) fs :
  (∀ f, f ∈ fs → length (h f) = sizeof f) →
  length (concat (h <$> fs)) = sum_list (sizeof <$> fs).
Proof.
  induction fs as [|f fs IH]; intros Hlen; [done|].
  rewrite !fmap_cons. simpl. rewrite length_app, Hlen by left.
  rewrite IH; [done|]. intros g Hg. apply Hlen. by right.
Qed.

Lemma concat_fields_inj (h1 h2 : unity_hparams) fs :
  (∀ f, f ∈ fs → length (h1 f) = length (h2 f)) →
  concat (h1 <$> fs) = concat (h2 <$> fs) →
  ∀ f, f ∈ fs → h1 f = h2 f.
Proof.
  induction fs as [|g fs IH]; intros Hlen Hcat f Hf.
  - by apply elem_of_nil in Hf.
  - rewrite !fmap_cons in Hcat. simpl in Hcat.
    apply app_inj_1 in Hcat as [Hg Hrest]; [|apply Hlen; left].
    apply elem_of_cons in Hf as [->|Hf]; [done|].
    apply IH; [|done..]. intros f' Hf'. apply Hlen. by right.
Qed.

Lemma length_serialize_hparams h :
  wf_hparams sizeof h → length (serialize_hparams h) = hparams_size sizeof.
Proof. intros Hwf. apply length_concat_fields. intros f _. apply Hwf. Qed.

Lemma open_stream_good fin bs :
  good fin = true → avail fin = bs → fin = open_stream bs.
Proof.
  unfold avail, good, open_stream. destruct fin as [b [] []]; simpl; try done.
  by intros _ ->.
Qed.

(** What [load_hparams] does to any model and any stream. *)
Lemma load_hparams_spec m fin :
  wf_hparams sizeof (hparams m) →
  ∃ m' fin',
    load_hparams sizeof (m, fin) = (Ok tt, (m', fin')) ∧
    arch m' = arch m ∧ ctx m' = ctx m ∧ tensors m' = tensors m ∧
    wf_hparams sizeof (hparams m') ∧
    serialize_hparams (hparams m')
    = overwrite (take (hparams_size sizeof) (avail fin)) (serialize_hparams (hparams m)) ∧
    avail fin' = drop (hparams_size sizeof) (avail fin) ∧
    good fin' = good fin && bool_decide (hparams_size sizeof ≤ length (avail fin)) ∧
    (eofbit fin = failbit fin → eofbit fin' = failbit fin').
Proof.
  intros Hwf. rewrite load_hparams_read_fields.
  destruct (read_fields_spec field_order field_order_NoDup m fin)
    as (m' & fin' & Hrun & Ha & Hc & Ht & _ & Hl & Hcat & Hav & Hgood & Hbits).
  { intros f _. apply Hwf. }
  exists m', fin'.
  split; [exact Hrun|]. split; [exact Ha|]. split; [exact Hc|]. split; [exact Ht|].
  split; [intros f; rewrite Hl; apply Hwf|].
  split; [exact Hcat|]. split; [exact Hav|]. split; [exact Hgood|exact Hbits].
Qed.

Lemma avail_open_stream bs : avail (open_stream bs) = bs.
Proof. done. Qed.

(** C4. Round trip: for every hyperparameter table, written field by field
    in the serialized order, [load_hparams] reads back a table whose every
    field is bit-for-bit the one written; the stream is left, in good state,
    just past the section. *)
Theorem load_hparams_roundtrip (h : unity_hparams) (m : fairseq2_model) (rest : list byte) :
  wf_hparams sizeof h →
  wf_hparams sizeof (hparams m) →
  ∃ m', load_hparams sizeof (m, open_stream (serialize_hparams h ++ rest))
        = (Ok tt, (m', open_stream rest)) ∧
        ∀ f, hparams m' f = h f.
Proof.
  intros Hh Hm.
  destruct (load_hparams_spec m (open_stream (serialize_hparams h ++ rest)) Hm)
    as (m' & fin' & Hrun & _ & _ & _ & Hwf & Hcat & Hav & Hgood & _).
  rewrite avail_open_stream in Hcat, Hav, Hgood.
  pose proof (length_serialize_hparams h Hh) as Lh.
  pose proof (length_serialize_hparams (hparams m) Hm) as Lm.
  rewrite take_app_length' in Hcat by done.
  rewrite drop_app_length' in Hav by done.
  unfold overwrite in Hcat. rewrite drop_ge, app_nil_r in Hcat by lia.
  rewrite bool_decide_eq_true_2 in Hgood by (rewrite length_app; lia).
  exists m'. split.
  - rewrite Hrun. do 2 f_equal. by apply open_stream_good.
  - intros f. apply (concat_fields_inj (hparams m') h field_order).
    + intros g _. by rewrite Hwf, Hh.
    + exact Hcat.
    + apply field_order_complete.
Qed.

(** C9. No value-level validation: on every stream long enough to fill all
    the fields, whatever its bytes are, [load_hparams] returns normally with
    the stream still good, and the table holds exactly the bytes that were in
    the stream. No bit pattern of any field makes it fail. *)
Theorem load_hparams_accepts_any_bytes (m : fairseq2_model) (bs : list byte) :
  wf_hparams sizeof (hparams m) →
  hparams_size sizeof ≤ length bs →
  ∃ m', load_hparams sizeof (m, open_stream bs)
        = (Ok tt, (m', open_stream (drop (hparams_size sizeof) bs))) ∧
        serialize_hparams (hparams m') = take (hparams_size sizeof) bs.
Proof.
  intros Hm Hlen.
  destruct (load_hparams_spec m (open_stream bs) Hm)
    as (m' & fin' & Hrun & _ & _ & _ & Hwf & Hcat & Hav & Hgood & _).
  rewrite avail_open_stream in Hcat, Hav, Hgood.
  pose proof (length_serialize_hparams (hparams m) Hm) as Lm.
  rewrite bool_decide_eq_true_2 in Hgood by done.
  exists m'. split.
  - rewrite Hrun. do 2 f_equal. by apply open_stream_good.
  - rewrite Hcat. unfold overwrite.
    rewrite drop_ge, app_nil_r; [done|]. rewrite length_take. lia.
Qed.

(** C5, as the code has it. On every stream that ends strictly inside the
    hyperparameter section, [load_hparams] raises nothing: it returns
    normally, leaving [failbit] and [eofbit] set on the stream, and the table
    partially overwritten: the leading bytes of its serialized image are the
    bytes the stream held, the remaining ones keep their previous value. *)
Theorem load_hparams_truncated (m : fairseq2_model) (bs : list byte) :
  wf_hparams sizeof (hparams m) →
  length bs < hparams_size sizeof →
  ∃ m' fin',
    load_hparams sizeof (m, open_stream bs) = (Ok tt, (m', fin')) ∧
    failbit fin' = true ∧ eofbit fin' = true ∧
    serialize_hparams (hparams m')
    = bs ++ drop (length bs) (serialize_hparams (hparams m)).
Proof.
  intros Hm Hlen.
  destruct (load_hparams_spec m (open_stream bs) Hm)
    as (m' & fin' & Hrun & _ & _ & _ & Hwf & Hcat & Hav & Hgood & Hbits).
  rewrite avail_open_stream in Hcat, Hav, Hgood.
  rewrite bool_decide_eq_false_2 in Hgood by lia.
  specialize (Hbits eq_refl).
  exists m', fin'. split; [exact Hrun|].
  unfold good in Hgood. rewrite Hbits in Hgood.
  destruct (failbit fin'); [|done].
  repeat split; [done|].
  rewrite Hcat. by rewrite take_ge by lia.
Qed.

End load_hparams_properties.

Lemma load_hparams_roundtrip_witness :
  ∃ m', load_hparams sizeof_q
          (new_model (const_hparams 0) 0,
           open_stream (serialize_hparams example_hparams ++ [Byte.x2a]))
        = (Ok tt, (m', open_stream [Byte.x2a])) ∧
        ∀ f, hparams m' f = example_hparams f.
Proof.
  apply (load_hparams_roundtrip sizeof_q example_hparams
           (new_model (const_hparams 0) 0) [Byte.x2a]).
  - intros f. destruct f; reflexivity.
  - intros f. reflexivity.
Defined.

Lemma load_hparams_accepts_any_bytes_witness :
  ∃ m', load_hparams sizeof_q
          (new_model (const_hparams 0) 0,
           open_stream (serialize_hparams (const_hparams (-1))))
        = (Ok tt, (m', open_stream (drop (hparams_size sizeof_q)
                                      (serialize_hparams (const_hparams (-1)))))) ∧
        serialize_hparams (hparams m')
        = take (hparams_size sizeof_q) (serialize_hparams (const_hparams (-1))).
Proof.
  apply (load_hparams_accepts_any_bytes sizeof_q (new_model (const_hparams 0) 0)
           (serialize_hparams (const_hparams (-1)))).
  - intros f. reflexivity.
  - vm_compute. lia.
Defined.

Lemma load_hparams_truncated_witness :
  ∃ m' fin',
    load_hparams sizeof_q (new_model (const_hparams (-1)) 0, truncated_stream)
    = (Ok tt, (m', fin')) ∧
    failbit fin' = true ∧ eofbit fin' = true ∧
    serialize_hparams (hparams m')
    = rdbuf truncated_stream
      ++ drop (length (rdbuf truncated_stream))
           (serialize_hparams (hparams (new_model (const_hparams (-1)) 0))).
Proof.
  apply (load_hparams_truncated sizeof_q (new_model (const_hparams (-1)) 0)
           (rdbuf truncated_stream)).
  - intros f. reflexivity.
  - vm_compute. lia.
Defined.

(** C5, as the claim states it, fails: on a checkpoint cut 211 bytes into the
    section [load_hparams] does not fail with [TruncatedInputError]; it returns
    normally and leaves the 27th field made of three bytes of the stream
    followed by five bytes of its previous value. *)
Lemma load_hparams_truncated_no_error :
  length (rdbuf truncated_stream) < hparams_size sizeof_q ∧
  (load_hparams sizeof_q (new_model (const_hparams (-1)) 0, truncated_stream)).1
  ≠ Throw TruncatedInputError ∧
  (load_hparams sizeof_q (new_model (const_hparams (-1)) 0, truncated_stream)).1
  = Ok tt ∧
  hparams (load_hparams sizeof_q (new_model (const_hparams (-1)) 0, truncated_stream)).2.1
    nllb_config__max_seq_len
  = [Byte.x00; Byte.x00; Byte.x00; Byte.xff; Byte.xff; Byte.xff; Byte.xff; Byte.xff].
Proof.
  split; [vm_compute; lia|].
  split; [vm_compute; discriminate|].
  split; vm_compute; reflexivity.
Qed.

(** * Properties of the tensor names *)

Section names.

Local Abbreviation chars := String.list_ascii_of_string.

Lemma chars_app s1 s2 : chars (s1 +:+ s2) = chars s1 ++ chars s2.
Proof.
  induction s1 as [|c s1 IH]; [done|].
  change (chars (String c s1 +:+ s2)) with (c :: chars (s1 +:+ s2)).
  by rewrite IH.
Qed.

Lemma chars_inj s1 s2 : chars s1 = chars s2 → s1 = s2.
Proof.
  intros E. rewrite <- (String.string_of_list_ascii_of_string s1).
  rewrite <- (String.string_of_list_ascii_of_string s2). by rewrite E.
Qed.

Lemma string_app_inj_r s1 s2 t : s1 +:+ t = s2 +:+ t → s1 = s2.
Proof.
  intros E. apply chars_inj. apply (f_equal chars) in E.
  rewrite !chars_app in E. by apply app_inv_tail in E.
Qed.

Lemma layer_prefix_inj i j :
  "text_decoder.layers." +:+ to_string i = "text_decoder.layers." +:+ to_string j → i = j.
Proof. intros E. apply String.app_inj in E. by apply pretty_Z_inj in E. Qed.

Lemma self_attn_name_inj i j : self_attn_name i = self_attn_name j → i = j.
Proof. intros E. by apply string_app_inj_r, layer_prefix_inj in E. Qed.

Lemma self_attn_norm_name_inj i j : self_attn_norm_name i = self_attn_norm_name j → i = j.
Proof. intros E. by apply string_app_inj_r, layer_prefix_inj in E. Qed.

(** The two suffixes cannot be confused, whatever precedes them: their last
    nine characters differ. *)
Lemma self_attn_name_ne_norm i j : self_attn_name i ≠ self_attn_norm_name j.
Proof.
  unfold self_attn_name, self_attn_norm_name. intros E.
  apply (f_equal chars) in E. rewrite !chars_app in E.
  change (chars "self_attn_norm") with (chars "self_" ++ chars "attn_norm") in E.
  rewrite (app_assoc _ (chars "self_")) in E.
  apply app_inj_2 in E as [_ E]; [|done]. discriminate E.
Qed.

Lemma layer_names_NoDup i : NoDup (layer_names i).
Proof.
  unfold layer_names. apply NoDup_cons_2.
  - intros E%list_elem_of_singleton. by eapply self_attn_name_ne_norm.
  - apply NoDup_singleton.
Qed.

Lemma layer_names_disjoint i j name :
  name ∈ layer_names i → name ∈ layer_names j → i = j.
Proof.
  unfold layer_names. rewrite !elem_of_cons, !elem_of_nil.
  intros [->|[->|[]]] [E|[E|[]]].
  - by apply self_attn_name_inj.
  - by apply self_attn_name_ne_norm in E.
  - symmetry in E. by apply self_attn_name_ne_norm in E.
  - by apply self_attn_norm_name_inj.
Qed.

Lemma names_from_NoDup i k : NoDup (names_from i k).
Proof.
  unfold names_from. apply NoDup_bind.
  - intros x1 x2 y _ _. apply layer_names_disjoint.
  - intros x _. apply layer_names_NoDup.
  - apply NoDup_seqZ.
Qed.

Lemma elem_of_names_from i k name :
  name ∈ names_from i k ↔ ∃ j, (i ≤ j < i + Z.of_nat k)%Z ∧ name ∈ layer_names j.
Proof.
  unfold names_from. rewrite list_elem_of_bind.
  split; intros (j & H1 & H2); exists j.
  - by rewrite elem_of_seqZ in H2.
  - by rewrite elem_of_seqZ.
Qed.

Lemma length_names_from i k : length (names_from i k) = 2 * k.
Proof.
  unfold names_from. revert i. induction k as [|k IH]; intros i; [done|].
  rewrite seqZ_cons by lia. csimpl.
  replace (Z.pred (Z.of_nat (S k))) with (Z.of_nat k) by lia.
  rewrite IH. lia.
Qed.

Lemma names_from_S i k :
  names_from i (S k) = layer_names i ++ names_from (i + 1) k.
Proof.
  unfold names_from. rewrite seqZ_cons by lia. csimpl.
  replace (Z.pred (Z.of_nat (S k))) with (Z.of_nat k) by lia.
  by replace (Z.succ i) with (i + 1)%Z by lia.
Qed.

(** The names the commented-out statements of [tensors_alloc] would have
    registered are not names of the layer pass. *)
Lemma fixed_names_not_layer_names j :
  ("text_decoder_frontend.embed.weight" ∉ layer_names j) ∧
  ("text_decoder.layer_norm.weight" ∉ layer_names j) ∧
  ("text_decoder.layer_norm.bias" ∉ layer_names j).
Proof.
  unfold layer_names, self_attn_name, self_attn_norm_name.
  rewrite !elem_of_cons, !elem_of_nil.
  repeat split; intros [E|[E|[]]]; apply (f_equal chars) in E;
    rewrite !chars_app in E; discriminate E.
Qed.

End names.

(** * Properties of [tensors_alloc] *)

Section tensors_alloc_properties.

Implicit Types (m : fairseq2_model) (ls : list TransformerDecoderLayer).

(** *** One tensor *)

Lemma new_named_tensor_ok name shape m :
  valid_shape shape = true →
  (used (ctx m) + ggml_nbytes shape ≤ mem_size (ctx m))%Z →
  new_named_tensor name shape m
  = (Ok {| ne := shape; data := used (ctx m) |},
     {| hparams := hparams m; arch := arch m;
        ctx := {| mem_size := mem_size (ctx m);
                  used := (used (ctx m) + ggml_nbytes shape)%Z |};
        tensors := <[name := {| ne := shape; data := used (ctx m) |}]> (tensors m) |}).
Proof.
  intros Hv Hr. unfold new_named_tensor. rewrite Hv. simpl.
  by rewrite (proj2 (Z.leb_le _ _) Hr).
Qed.

Lemma new_named_tensor_frame name shape m r m' :
  new_named_tensor name shape m = (r, m') →
  hparams m' = hparams m ∧ arch m' = arch m ∧
  ∀ k, k ≠ name → tensors m' !! k = tensors m !! k.
Proof.
  unfold new_named_tensor.
  destruct (valid_shape shape && _); intros [= <- <-]; simpl; [|done].
  repeat split. intros k Hk. by rewrite lookup_insert_ne.
Qed.

(** *** One iteration *)

Lemma layer_body_frame d h i ls m r m' :
  layer_body d h i ls m = (r, m') →
  hparams m' = hparams m ∧ arch m' = arch m ∧
  ∀ name, name ∉ layer_names i → tensors m' !! name = tensors m !! name.
Proof.
  unfold layer_body, MultiheadAttention_init, LayerNorm_init, bind, ret.
  fold (self_attn_name i). fold (self_attn_norm_name i).
  destruct (new_named_tensor (self_attn_name i) _ m) as [r1 m1] eqn:E1.
  apply new_named_tensor_frame in E1 as (Hh1 & Ha1 & Ht1).
  assert (hparams m1 = hparams m ∧ arch m1 = arch m ∧
          ∀ name, name ∉ layer_names i → tensors m1 !! name = tensors m !! name) as Hf1.
  { split; [done|]. split; [done|].
    intros name Hn. apply Ht1. intros ->. apply Hn. unfold layer_names. by left. }
  destruct r1 as [t1|e|]; [|intros [= <- <-]; exact Hf1..].
  destruct (new_named_tensor (self_attn_norm_name i) _ m1) as [r2 m2] eqn:E2.
  apply new_named_tensor_frame in E2 as (Hh2 & Ha2 & Ht2).
  assert (hparams m2 = hparams m ∧ arch m2 = arch m ∧
          ∀ name, name ∉ layer_names i → tensors m2 !! name = tensors m !! name) as Hf2.
  { split; [congruence|]. split; [congruence|].
    intros name Hn. rewrite Ht2; [by apply Hf1|].
    intros ->. apply Hn. unfold layer_names. right. by left. }
  destruct r2 as [t2|e|]; intros [= <- <-]; exact Hf2.
Qed.

Lemma layer_bytes_nonneg d : (0 ≤ d → 0 ≤ layer_bytes d)%Z.
Proof. unfold layer_bytes, ggml_nbytes, ggml_nelements, GGML_TYPE_F32_size. simpl. nia. Qed.

Lemma layer_body_ok d h i ls m :
  (0 ≤ d)%Z →
  (used (ctx m) + layer_bytes d ≤ mem_size (ctx m))%Z →
  ∃ ls' m',
    layer_body d h i ls m = (Ok ls', m') ∧
    mem_size (ctx m') = mem_size (ctx m) ∧
    used (ctx m') = (used (ctx m) + layer_bytes d)%Z ∧
    dom (tensors m') = dom (tensors m) ∪ list_to_set (layer_names i).
Proof.
  intros Hd Hroom.
  assert (valid_shape [d; d] = true ∧ valid_shape [d] = true) as [Hv2 Hv1].
  { unfold valid_shape. simpl. by rewrite (proj2 (Z.leb_le 0 d) Hd). }
  assert (0 ≤ ggml_nbytes [d; d] ∧ 0 ≤ ggml_nbytes [d])%Z as [Hn2 Hn1].
  { unfold ggml_nbytes, ggml_nelements, GGML_TYPE_F32_size. simpl. nia. }
  unfold layer_bytes in Hroom.
  unfold layer_body, MultiheadAttention_init, LayerNorm_init, bind, ret.
  fold (self_attn_name i). fold (self_attn_norm_name i).
  rewrite new_named_tensor_ok by (done || lia).
  rewrite new_named_tensor_ok by (done || (simpl; lia)).
  eexists _, _. split; [reflexivity|]. simpl.
  split; [done|]. split; [unfold layer_bytes; lia|].
  rewrite !dom_insert_L. unfold layer_names.
  apply set_eq. intros x.
  rewrite !elem_of_union, !elem_of_singleton, elem_of_empty. tauto.
Qed.

(** An iteration that completes has initialized element [i] of the vector
    it was given, and only that one. *)
Lemma layer_body_inv d h i ls m ls' m' :
  layer_body d h i ls m = (Ok ls', m') →
  length ls' = length ls ∧
  (∀ j, j ≠ Z.to_nat i → ls' !! j = ls !! j) ∧
  (∀ l, ls' !! Z.to_nat i = Some l → initialized l ∧ mha_num_heads (self_attn l) = h).
Proof.
  unfold layer_body, MultiheadAttention_init, LayerNorm_init, bind, ret.
  destruct (new_named_tensor _ [d; d] m) as [[t1|e|] m1]; [|done..].
  destruct (new_named_tensor _ [d] m1) as [[t2|e|] m2]; [|done..].
  intros [= <- <-].
  split; [by rewrite !length_alter|].
  split; [intros j Hj; by rewrite !list_lookup_alter_ne|].
  intros l. rewrite !list_lookup_alter_eq.
  destruct (ls !! Z.to_nat i) as [l0|]; simpl; [|done].
  intros [= <-]. unfold initialized. simpl. eauto.
Qed.

(** *** The loop *)

(** Whatever the outcome, the loop leaves the hyperparameters and the
    architecture struct of the model alone, and touches no entry of the
    tensor table other than those of its own names. *)
Lemma layers_loop_frame d h k :
  ∀ i ls m r m',
  layers_loop d h k i ls m = (r, m') →
  hparams m' = hparams m ∧ arch m' = arch m ∧
  ∀ name, name ∉ names_from i k → tensors m' !! name = tensors m !! name.
Proof.
  induction k as [|k IH]; intros i ls m r m' Hrun.
  - by injection Hrun as <- <-.
  - cbn [layers_loop] in Hrun. unfold bind in Hrun.
    destruct (layer_body d h i ls m) as [r1 m1] eqn:E1.
    apply layer_body_frame in E1 as (Hh1 & Ha1 & Ht1).
    assert (hparams m1 = hparams m ∧ arch m1 = arch m ∧
            ∀ name, name ∉ names_from i (S k) →
                    tensors m1 !! name = tensors m !! name) as Hf1.
    { split; [done|]. split; [done|]. intros name Hn. apply Ht1.
      rewrite names_from_S in Hn. intros Hin. apply Hn, elem_of_app. by left. }
    destruct r1 as [ls1|e|]; [|injection Hrun as <- <-; exact Hf1..].
    destruct (i =? INT_MAX)%Z; [injection Hrun as <- <-; exact Hf1|].
    apply IH in Hrun as (Hh & Ha & Ht).
    split; [congruence|]. split; [congruence|].
    intros name Hn. rewrite Ht.
    + by apply Hf1.
    + rewrite names_from_S in Hn. intros Hin. apply Hn, elem_of_app. by right.
Qed.

(** With non-negative dimensions, a counter that stays an [int] and room in
    the arena, the loop runs to completion. *)
Lemma layers_loop_ok d h k :
  ∀ i ls m,
  (0 ≤ d)%Z → (i + Z.of_nat k ≤ INT_MAX)%Z →
  (used (ctx m) + Z.of_nat k * layer_bytes d ≤ mem_size (ctx m))%Z →
  ∃ ls' m',
    layers_loop d h k i ls m = (Ok ls', m') ∧
    mem_size (ctx m') = mem_size (ctx m) ∧
    used (ctx m') = (used (ctx m) + Z.of_nat k * layer_bytes d)%Z ∧
    dom (tensors m') = dom (tensors m) ∪ list_to_set (names_from i k).
Proof.
  induction k as [|k IH]; intros i ls m Hd Hmax Hroom.
  - exists ls, m. cbn [layers_loop]. unfold ret.
    split; [done|]. split; [done|]. split; [lia|].
    unfold names_from. simpl. by rewrite union_empty_r_L.
  - pose proof (layer_bytes_nonneg d Hd) as Hlb.
    destruct (layer_body_ok d h i ls m Hd) as (ls1 & m1 & E1 & Hm1 & Hu1 & Hd1); [nia|].
    cbn [layers_loop]. unfold bind. rewrite E1.
    rewrite (proj2 (Z.eqb_neq i INT_MAX)) by lia.
    destruct (IH (i + 1)%Z ls1 m1) as (ls' & m' & E & Hm & Hu' & Hd'); [done|lia|nia|].
    exists ls', m'. split; [done|]. split; [congruence|]. split; [nia|].
    rewrite Hd', Hd1, names_from_S, list_to_set_app_L. by rewrite (assoc_L (∪)).
Qed.

(** A loop that completes has initialized the elements [i], ..., [i + k - 1]
    of the vector it was given. *)
Lemma layers_loop_inv d h k :
  ∀ i ls m ls' m',
  (0 ≤ i)%Z →
  layers_loop d h k i ls m = (Ok ls', m') →
  length ls' = length ls ∧
  (∀ j : nat, (Z.of_nat j < i)%Z → ls' !! j = ls !! j) ∧
  (∀ (j : nat) l, (i ≤ Z.of_nat j < i + Z.of_nat k)%Z → ls' !! j = Some l →
                  initialized l ∧ mha_num_heads (self_attn l) = h).
Proof.
  induction k as [|k IH]; intros i ls m ls' m' Hi Hrun.
  - injection Hrun as <- <-. split; [done|]. split; [done|]. intros j l Hj. lia.
  - cbn [layers_loop] in Hrun. unfold bind in Hrun.
    destruct (layer_body d h i ls m) as [[ls1|e|] m1] eqn:E1; [|done..].
    apply layer_body_inv in E1 as (Hl1 & Hu1 & Hinit).
    destruct (i =? INT_MAX)%Z; [done|].
    apply IH in Hrun as (Hl & Hlt & Hin); [|lia].
    split; [congruence|].
    split.
    { intros j Hj. rewrite Hlt by lia. apply Hu1. lia. }
    intros j l Hj Hl'. destruct (decide (Z.of_nat j = i)) as [Hji|Hji].
    + rewrite Hlt in Hl' by lia. apply Hinit.
      by replace (Z.to_nat i) with j by lia.
    + apply (Hin j); [lia|done].
Qed.

(** *** The whole pass *)

Lemma vector_length_ok_true n :
  vector_length_ok sizeof_TransformerDecoderLayer n = true ↔ (0 ≤ n ≤ layers_max_size)%Z.
Proof.
  unfold vector_length_ok, layers_max_size.
  rewrite andb_true_iff, Z.leb_le, Z.leb_le. done.
Qed.

Lemma vector_length_ok_false n :
  vector_length_ok sizeof_TransformerDecoderLayer n = false ↔
  (n < 0 ∨ layers_max_size < n)%Z.
Proof.
  unfold vector_length_ok, layers_max_size.
  rewrite andb_false_iff, !Z.leb_gt. done.
Qed.

(** A vector of [INT_MAX] layers is within [max_size()]. *)
Lemma INT_MAX_le_layers_max_size : (INT_MAX ≤ layers_max_size)%Z.
Proof. vm_compute. intros E; discriminate E. Qed.

Lemma vector_length_ok_int n :
  (0 ≤ n ≤ INT_MAX)%Z → vector_length_ok sizeof_TransformerDecoderLayer n = true.
Proof.
  intros Hn. apply vector_length_ok_true.
  pose proof INT_MAX_le_layers_max_size. lia.
Qed.

Lemma tensors_alloc_layers_frame m r m' :
  tensors_alloc_layers m = (r, m') →
  let n := le_signed (hparams m nllb_config__num_decoder_layers) in
  hparams m' = hparams m ∧
  (∀ name, name ∉ registered_names n → tensors m' !! name = tensors m !! name) ∧
  ((n < 0 ∨ layers_max_size < n)%Z → r = Throw length_error ∧ m' = m) ∧
  ((0 ≤ n ≤ layers_max_size)%Z →
   layers (text_decoder (arch m')) = replicate (Z.to_nat n) default_layer).
Proof.
  intros Hrun n.
  unfold tensors_alloc_layers, bind, get, modify, vector_new in Hrun.
  fold n in Hrun.
  destruct (vector_length_ok sizeof_TransformerDecoderLayer n) eqn:En.
  - apply vector_length_ok_true in En. unfold ret in Hrun.
    apply layers_loop_frame in Hrun as (Hh & Ha & Ht).
    split; [done|]. split; [exact Ht|]. split; [lia|].
    intros _. by rewrite Ha.
  - apply vector_length_ok_false in En. unfold throw in Hrun.
    injection Hrun as <- <-.
    split; [done|]. split; [done|]. split; [done|]. lia.
Qed.

Lemma tensors_alloc_layers_ok m :
  let n := le_signed (hparams m nllb_config__num_decoder_layers) in
  let d := le_signed (hparams m nllb_config__model_dim) in
  (0 ≤ n ≤ INT_MAX)%Z → (0 ≤ d)%Z →
  (used (ctx m) + n * layer_bytes d ≤ mem_size (ctx m))%Z →
  ∃ ls' m',
    tensors_alloc_layers m = (Ok ls', m') ∧
    mem_size (ctx m') = mem_size (ctx m) ∧
    used (ctx m') = (used (ctx m) + n * layer_bytes d)%Z ∧
    dom (tensors m') = dom (tensors m) ∪ list_to_set (registered_names n).
Proof.
  intros n d Hn Hd Hroom.
  unfold tensors_alloc_layers, bind, get, modify, vector_new.
  fold n. fold d. clearbody n d.
  rewrite vector_length_ok_int by done. unfold ret.
  destruct (layers_loop_ok d (le_signed (hparams m nllb_config__num_decoder_attn_heads))
              (Z.to_nat n) 0
              (replicate (Z.to_nat n) default_layer)
              (set_layers (replicate (Z.to_nat n) default_layer) m))
    as (ls' & m' & E & Hm & Hu & Hdom);
    [done|lia|unfold set_layers; cbn [ctx used mem_size]; rewrite Z2Nat.id; lia|].
  unfold set_layers in Hm, Hu, Hdom. cbn [ctx used mem_size tensors] in Hm, Hu, Hdom.
  rewrite Z2Nat.id in Hu by lia.
  exists ls', m'. split; [exact E|].
  split; [done|]. split; [lia|]. exact Hdom.
Qed.

(** The local vector of a pass that completes: one initialized element per
    layer. *)
Lemma tensors_alloc_layers_inv m ls' m' :
  tensors_alloc_layers m = (Ok ls', m') →
  let n := le_signed (hparams m nllb_config__num_decoder_layers) in
  let h := le_signed (hparams m nllb_config__num_decoder_attn_heads) in
  (0 ≤ n ≤ layers_max_size)%Z ∧ length ls' = Z.to_nat n ∧
  ∀ l, l ∈ ls' → initialized l ∧ mha_num_heads (self_attn l) = h.
Proof.
  intros Hrun n h.
  unfold tensors_alloc_layers, bind, get, modify, vector_new in Hrun.
  fold n in Hrun. fold h in Hrun.
  destruct (vector_length_ok sizeof_TransformerDecoderLayer n) eqn:En; [|done].
  apply vector_length_ok_true in En. unfold ret in Hrun.
  apply layers_loop_inv in Hrun as (Hl & _ & Hin); [|done].
  unfold set_layers in Hl. cbn [arch text_decoder layers] in Hl.
  rewrite length_replicate in Hl.
  split; [done|]. split; [done|].
  intros l (j & Hj)%list_elem_of_lookup_1.
  apply (Hin j); [|done]. apply lookup_lt_Some in Hj. lia.
Qed.

(** *** What the pass carves from the arena, whatever its outcome *)

Lemma new_named_tensor_carves name shape m r m' :
  new_named_tensor name shape m = (r, m') →
  mem_size (ctx m') = mem_size (ctx m) ∧
  ((r = Throw OutOfArenaMemoryError ∧ used (ctx m') = used (ctx m)) ∨
   ((∃ t, r = Ok t) ∧ used (ctx m') = (used (ctx m) + ggml_nbytes shape)%Z)).
Proof.
  unfold new_named_tensor.
  destruct (valid_shape shape && _); intros [= <- <-]; simpl.
  - split; [done|]. right. eauto.
  - split; [done|]. by left.
Qed.

Lemma layer_body_carves d h i ls m r m' :
  layer_body d h i ls m = (r, m') →
  mem_size (ctx m') = mem_size (ctx m) ∧
  ((r = Throw OutOfArenaMemoryError ∧ used (ctx m') = (used (ctx m) + carved_bytes d 0 false)%Z) ∨
   (r = Throw OutOfArenaMemoryError ∧ used (ctx m') = (used (ctx m) + carved_bytes d 0 true)%Z) ∨
   ((∃ ls', r = Ok ls') ∧ used (ctx m') = (used (ctx m) + carved_bytes d 1 false)%Z)).
Proof.
  unfold carved_bytes, layer_bytes.
  unfold layer_body, MultiheadAttention_init, LayerNorm_init, bind, ret.
  destruct (new_named_tensor _ [d; d] m) as [r1 m1] eqn:E1.
  apply new_named_tensor_carves in E1 as (Hm1 & [[-> Hu1]|[[t1 ->] Hu1]]).
  { intros [= <- <-]. split; [done|]. left. split; [done|]. lia. }
  destruct (new_named_tensor _ [d] m1) as [r2 m2] eqn:E2.
  apply new_named_tensor_carves in E2 as (Hm2 & [[-> Hu2]|[[t2 ->] Hu2]]).
  { intros [= <- <-]. split; [congruence|]. right. left. split; [done|]. lia. }
  intros [= <- <-]. split; [congruence|]. right. right. split; [eauto|]. lia.
Qed.

Lemma layers_loop_carves d h k :
  ∀ i ls m r m',
  layers_loop d h k i ls m = (r, m') →
  mem_size (ctx m') = mem_size (ctx m) ∧
  ∃ (c : nat) (half : bool),
    c ≤ k ∧
    used (ctx m') = (used (ctx m) + carved_bytes d c half)%Z ∧
    ((∃ ls', r = Ok ls') → c = k ∧ half = false).
Proof.
  induction k as [|k IH]; intros i ls m r m' Hrun.
  - injection Hrun as <- <-. split; [done|]. exists 0, false.
    unfold carved_bytes. split; [done|]. split; [lia|done].
  - cbn [layers_loop] in Hrun. unfold bind in Hrun.
    destruct (layer_body d h i ls m) as [r1 m1] eqn:E1.
    apply layer_body_carves in E1
      as (Hm1 & [[-> Hu1]|[[-> Hu1]|[[ls1 ->] Hu1]]]).
    + injection Hrun as <- <-. split; [done|]. exists 0, false.
      split; [lia|]. split; [done|]. by intros [ls' ?].
    + injection Hrun as <- <-. split; [done|]. exists 0, true.
      split; [lia|]. split; [done|]. by intros [ls' ?].
    + destruct (i =? INT_MAX)%Z.
      * injection Hrun as <- <-. split; [done|]. exists 1, false.
        split; [lia|]. split; [done|]. by intros [ls' ?].
      * apply IH in Hrun as (Hm & c & half & Hc & Hu & Hok).
        split; [congruence|]. exists (S c), half.
        split; [lia|]. split.
        { rewrite Hu, Hu1. unfold carved_bytes. lia. }
        intros Hr. destruct (Hok Hr) as [-> ->]. done.
Qed.

Lemma tensors_alloc_layers_carves m r m' :
  tensors_alloc_layers m = (r, m') →
  let n := le_signed (hparams m nllb_config__num_decoder_layers) in
  let d := le_signed (hparams m nllb_config__model_dim) in
  mem_size (ctx m') = mem_size (ctx m) ∧
  ∃ (c : nat) (half : bool),
    c ≤ Z.to_nat n ∧
    used (ctx m') = (used (ctx m) + carved_bytes d c half)%Z ∧
    ((∃ ls', r = Ok ls') → c = Z.to_nat n ∧ half = false).
Proof.
  intros Hrun n d.
  unfold tensors_alloc_layers, bind, get, modify, vector_new in Hrun.
  fold n in Hrun. fold d in Hrun.
  destruct (vector_length_ok sizeof_TransformerDecoderLayer n).
  - unfold ret in Hrun. apply layers_loop_carves in Hrun. exact Hrun.
  - unfold throw in Hrun. injection Hrun as <- <-.
    split; [done|]. exists 0, false. unfold carved_bytes.
    split; [lia|]. split; [lia|]. by intros [ls' ?].
Qed.

Lemma tensors_alloc_run m :
  tensors_alloc m
  = (match (tensors_alloc_layers m).1 with
     | Ok _ => Ok tt
     | Throw e => Throw e
     | Undefined => Undefined
     end, (tensors_alloc_layers m).2).
Proof.
  unfold tensors_alloc, bind, ret.
  by destruct (tensors_alloc_layers m) as [[ls|e|] m'].
Qed.

(** *** The claims about the allocation pass *)

(** C6. For every layer count [n >= 0] (within the range of the loop counter,
    with non-negative dimensions and room in the arena, so that the pass runs
    to completion) [tensors_alloc] returns normally having registered, for
    each index [0 <= i < n], one self-attention and one normalization tensor
    named with that index, and nothing else: a table that held none of these
    names grows by exactly [2n] entries. *)
Theorem tensors_alloc_registers_each_layer (m : fairseq2_model) (n : Z) :
  le_signed (hparams m nllb_config__num_decoder_layers) = n →
  (0 ≤ n ≤ INT_MAX)%Z →
  (0 ≤ le_signed (hparams m nllb_config__model_dim))%Z →
  (used (ctx m) + requested_bytes (hparams m) ≤ mem_size (ctx m))%Z →
  (∀ name, name ∈ registered_names n → tensors m !! name = None) →
  ∃ m',
    tensors_alloc m = (Ok tt, m') ∧
    (∀ name, is_Some (tensors m' !! name) ↔
             is_Some (tensors m !! name) ∨
             ∃ i, (0 ≤ i < n)%Z ∧
                  (name = self_attn_name i ∨ name = self_attn_norm_name i)) ∧
    size (tensors m') = size (tensors m) + 2 * Z.to_nat n.
Proof.
  intros Hn Hrange Hd Hroom Hfresh. unfold requested_bytes in Hroom.
  destruct (tensors_alloc_layers_ok m) as (ls' & m' & E & _ & _ & Hdom);
    [by rewrite Hn|done|done|].
  rewrite Hn in Hdom.
  exists m'. split; [by rewrite tensors_alloc_run, E|].
  split.
  - intros name. rewrite <- !elem_of_dom, Hdom, elem_of_union, elem_of_list_to_set.
    unfold registered_names. rewrite elem_of_names_from.
    rewrite Z2Nat.id by lia. unfold layer_names.
    setoid_rewrite elem_of_cons. setoid_rewrite elem_of_cons.
    setoid_rewrite elem_of_nil.
    split; (intros [?|(i & ? & ?)]; [by left|right; exists i; split; [lia|tauto]]).
  - rewrite <- !size_dom, Hdom, size_union.
    + rewrite size_list_to_set by apply names_from_NoDup.
      unfold registered_names. by rewrite length_names_from.
    + intros name Hin1 Hin2. apply elem_of_dom in Hin1 as [t Ht].
      apply elem_of_list_to_set in Hin2. rewrite Hfresh in Ht by done. done.
Qed.

(** C7. For every hyperparameter table with a layer count up to 24, the
    names of the pass, the [2n] entries of [registered_names n], are pairwise
    distinct. Whatever the outcome of the pass, every entry of the tensor
    table it touches is registered under one of them; and when the pass has
    non-negative dimensions and room in the arena it completes having
    registered them all. *)
Theorem tensors_alloc_names_distinct (m : fairseq2_model) (n : Z) :
  le_signed (hparams m nllb_config__num_decoder_layers) = n →
  (0 ≤ n ≤ 24)%Z →
  NoDup (registered_names n) ∧
  length (registered_names n) = 2 * Z.to_nat n ∧
  (∀ name, tensors (tensors_alloc m).2 !! name = tensors m !! name ∨
           name ∈ registered_names n) ∧
  ((0 ≤ le_signed (hparams m nllb_config__model_dim))%Z →
   (used (ctx m) + requested_bytes (hparams m) ≤ mem_size (ctx m))%Z →
   ∃ m',
     tensors_alloc m = (Ok tt, m') ∧
     dom (tensors m') = dom (tensors m) ∪ list_to_set (registered_names n)).
Proof.
  intros Hn Hrange.
  split; [apply names_from_NoDup|]. split; [apply length_names_from|].
  split.
  - intros name. rewrite tensors_alloc_run. cbn [snd].
    destruct (tensors_alloc_layers m) as [r m1] eqn:E. cbn [snd].
    apply tensors_alloc_layers_frame in E as (_ & Hframe & _). rewrite Hn in Hframe.
    destruct (decide (name ∈ registered_names n)); [by right|left; by apply Hframe].
  - intros Hd Hroom. unfold requested_bytes in Hroom.
    destruct (tensors_alloc_layers_ok m) as (ls' & m' & E & _ & _ & Hdom);
      [rewrite Hn; unfold INT_MAX; lia|done|done|].
    rewrite Hn in Hdom.
    exists m'. split; [by rewrite tensors_alloc_run, E|done].
Qed.

(** C8. Whatever the hyperparameters and whatever the outcome of the pass,
    [tensors_alloc] neither registers nor allocates the frontend embedding or
    the final layer normalization. The entries of the tensor table under
    their names are left as they were, and every entry the pass touches is a
    per-layer self-attention or normalization entry. The capacity of the
    arena is unchanged, and what the pass carves from it is exactly the
    storage of per-layer tensors, not one byte more: that of [c] whole layers
    (and of the attention tensor of the next one when the pass fails between
    the two tensors of a layer), with [c] the full layer count when the pass
    returns normally. *)
Theorem tensors_alloc_only_layer_tensors (m : fairseq2_model) :
  let m' := (tensors_alloc m).2 in
  let n := le_signed (hparams m nllb_config__num_decoder_layers) in
  let d := le_signed (hparams m nllb_config__model_dim) in
  tensors m' !! "text_decoder_frontend.embed.weight"
  = tensors m !! "text_decoder_frontend.embed.weight" ∧
  tensors m' !! "text_decoder.layer_norm.weight"
  = tensors m !! "text_decoder.layer_norm.weight" ∧
  tensors m' !! "text_decoder.layer_norm.bias"
  = tensors m !! "text_decoder.layer_norm.bias" ∧
  (∀ name, tensors m' !! name = tensors m !! name ∨
           ∃ i, (0 ≤ i < n)%Z ∧
                (name = self_attn_name i ∨ name = self_attn_norm_name i)) ∧
  mem_size (ctx m') = mem_size (ctx m) ∧
  ∃ (c : nat) (half : bool),
    c ≤ Z.to_nat n ∧
    used (ctx m') = (used (ctx m) + carved_bytes d c half)%Z ∧
    ((tensors_alloc m).1 = Ok tt →
     c = Z.to_nat n ∧ half = false ∧
     used (ctx m') = (used (ctx m) + requested_bytes (hparams m))%Z).
Proof.
  intros m' n d. unfold m'. rewrite tensors_alloc_run. cbn [fst snd].
  destruct (tensors_alloc_layers m) as [r m1] eqn:E. cbn [fst snd].
  pose proof (tensors_alloc_layers_carves m r m1 E) as (Hmem & c & half & Hc & Hu & Hok).
  fold n in Hc, Hok. fold d in Hu.
  apply tensors_alloc_layers_frame in E as (_ & Hframe & Hthrow & _).
  fold n in Hframe, Hthrow.
  assert (∀ name, (∀ j, name ∉ layer_names j) → tensors m1 !! name = tensors m !! name)
    as Hfixed.
  { intros name Hj. apply Hframe. unfold registered_names.
    rewrite elem_of_names_from. intros (j & _ & Hin). by apply (Hj j). }
  split; [apply Hfixed; intros j; apply fixed_names_not_layer_names|].
  split; [apply Hfixed; intros j; apply fixed_names_not_layer_names|].
  split; [apply Hfixed; intros j; apply fixed_names_not_layer_names|].
  split.
  { intros name. destruct (decide (name ∈ registered_names n)) as [Hin|Hout].
    - right. unfold registered_names in Hin.
      apply elem_of_names_from in Hin as (i & Hi & Hin).
      unfold layer_names in Hin. rewrite !elem_of_cons, elem_of_nil in Hin.
      exists i. split; [lia|tauto].
    - left. by apply Hframe. }
  split; [exact Hmem|].
  exists c, half. split; [exact Hc|]. split; [exact Hu|].
  intros Hr. destruct r as [ls|e|]; [|discriminate Hr..].
  destruct Hok as [-> ->]; [by exists ls|].
  split; [done|]. split; [done|].
  rewrite Hu. unfold carved_bytes, requested_bytes. fold n. fold d.
  assert (0 ≤ n)%Z.
  { destruct (decide (0 ≤ n)%Z) as [|Hneg]; [done|].
    destruct Hthrow as [Hthrow _]; [left; lia|discriminate Hthrow]. }
  rewrite Z2Nat.id by done. lia.
Qed.

(** C10. After [tensors_alloc] returns, the model's own
    [arch.text_decoder.layers] has exactly as many elements as there are
    decoder layers and each of them is still default-constructed; the
    initialized sub-modules are those of the local vector [layers], a copy the
    function drops on return. *)
Theorem tensors_alloc_initializes_a_copy
    (m : fairseq2_model) (ls : list TransformerDecoderLayer) (m' : fairseq2_model) :
  tensors_alloc_layers m = (Ok ls, m') →
  let n := le_signed (hparams m nllb_config__num_decoder_layers) in
  tensors_alloc m = (Ok tt, m') ∧
  layers (text_decoder (arch m')) = replicate (Z.to_nat n) default_layer ∧
  length ls = Z.to_nat n ∧
  (∀ l, l ∈ ls → initialized l) ∧
  (∀ l, l ∈ layers (text_decoder (arch m')) → ¬ initialized l).
Proof.
  intros E n.
  pose proof (tensors_alloc_layers_inv m ls m' E) as (Hn & Hlen & Hinit).
  pose proof (tensors_alloc_layers_frame m _ m' E) as (_ & _ & _ & Harch).
  fold n in Hn, Hlen, Harch. specialize (Harch Hn).
  split; [by rewrite tensors_alloc_run, E|].
  split; [done|]. split; [done|].
  split; [intros l Hl; by apply Hinit|].
  intros l Hl. rewrite Harch in Hl. apply elem_of_replicate in Hl as [-> _].
  unfold initialized, default_layer. simpl. intros [[t Ht] _]. discriminate Ht.
Qed.

End tensors_alloc_properties.

Lemma tensors_alloc_registers_each_layer_witness :
  ∃ m',
    tensors_alloc example_model = (Ok tt, m') ∧
    (∀ name, is_Some (tensors m' !! name) ↔
             is_Some (tensors example_model !! name) ∨
             ∃ i, (0 ≤ i < 2)%Z ∧
                  (name = self_attn_name i ∨ name = self_attn_norm_name i)) ∧
    size (tensors m') = size (tensors example_model) + 2 * Z.to_nat 2.
Proof.
  apply (tensors_alloc_registers_each_layer example_model 2).
  - vm_compute. reflexivity.
  - vm_compute. split; intros E; discriminate E.
  - vm_compute. intros E; discriminate E.
  - vm_compute. intros E; discriminate E.
  - intros name _. reflexivity.
Defined.

Lemma tensors_alloc_names_distinct_witness :
  NoDup (registered_names 24) ∧
  length (registered_names 24) = 2 * Z.to_nat 24 ∧
  (∀ name, tensors (tensors_alloc deep_model).2 !! name = tensors deep_model !! name ∨
           name ∈ registered_names 24) ∧
  ∃ m',
    tensors_alloc deep_model = (Ok tt, m') ∧
    dom (tensors m') = dom (tensors deep_model) ∪ list_to_set (registered_names 24).
Proof.
  destruct (tensors_alloc_names_distinct deep_model 24) as (Hnd & Hlen & Hreg & Hrun).
  - vm_compute. reflexivity.
  - vm_compute. split; intros E; discriminate E.
  - split; [exact Hnd|]. split; [exact Hlen|]. split; [exact Hreg|].
    apply Hrun.
    + vm_compute. intros E; discriminate E.
    + vm_compute. intros E; discriminate E.
Defined.

Lemma tensors_alloc_initializes_a_copy_witness :
  let n := le_signed (hparams example_model nllb_config__num_decoder_layers) in
  tensors_alloc example_model = (Ok tt, example_after) ∧
  layers (text_decoder (arch example_after)) = replicate (Z.to_nat n) default_layer ∧
  length example_layers = Z.to_nat n ∧
  (∀ l, l ∈ example_layers → initialized l) ∧
  (∀ l, l ∈ layers (text_decoder (arch example_after)) → ¬ initialized l).
Proof.
  apply (tensors_alloc_initializes_a_copy example_model example_layers example_after).
  vm_compute. reflexivity.
Defined.

(** * Where the code departs from the specification *)

(** C1. With two decoder layers of dimension 512 and 8 heads, the pass
    registers four tensors, named with the layer index glued to the suffix:
    [prefix] ends with the index and the dot that should separate it from
    [self_attn] is not there. None of the four names of the specification is
    in the table. *)
Theorem tensors_alloc_example_names :
  (tensors_alloc example_model).1 = Ok tt ∧
  dom (tensors (tensors_alloc example_model).2)
  = list_to_set
      [ "text_decoder.layers.0self_attn"; "text_decoder.layers.0self_attn_norm";
        "text_decoder.layers.1self_attn"; "text_decoder.layers.1self_attn_norm" ] ∧
  Forall (λ name, tensors (tensors_alloc example_model).2 !! name = None)
      [ "text_decoder.layers.0.self_attn"; "text_decoder.layers.0.self_attn_norm";
        "text_decoder.layers.1.self_attn"; "text_decoder.layers.1.self_attn_norm" ].
Proof.
  split; [vm_compute; reflexivity|]. split.
  - apply (bool_decide_unpack _). vm_compute. reflexivity.
  - repeat constructor; vm_compute; reflexivity.
Qed.

(** C3. [compute_context_size] is not a function of the table: the same
    table stored at two addresses gives two different byte counts, each
    102400 times the address, where the table asks for 1024 * 102400. *)
Theorem compute_context_size_depends_on_address :
  let heap : gmap Z (hfield → list byte) :=
    {[ address_a := example_hparams; address_b := example_hparams ]} in
  heap !! address_a = heap !! address_b ∧
  le_signed (example_hparams model_dim) = 1024%Z ∧
  compute_context_size sizeof_q address_a [] = Ok 645085593600%Z ∧
  compute_context_size sizeof_q address_b [] = Ok 645295308800%Z ∧
  compute_context_size sizeof_q address_a [] ≠ compute_context_size sizeof_q address_b [].
Proof.
  repeat split; try (vm_compute; reflexivity).
  vm_compute. intros E; discriminate E.
Qed.

(** C2. The byte count is no upper bound of what the pass requests: for the
    large decoder stored at [address_a] the count is 645085593600 while the
    tensors of the pass need 1099545182208 bytes, and in an arena of the
    computed size [tensors_alloc] fails with [OutOfArenaMemoryError]. *)
Theorem compute_context_size_underestimates :
  compute_context_size sizeof_q address_a [] = Ok 645085593600%Z ∧
  requested_bytes large_hparams = 1099545182208%Z ∧
  (tensors_alloc (new_model large_hparams 645085593600)).1 = Throw OutOfArenaMemoryError.
Proof.
  repeat split; vm_compute; reflexivity.
Qed.

(** * Further properties of [load_hparams] *)

Section load_hparams_layout.

Variable sizeof : hfield → nat.

Lemma read_fields_step f fs s :
  read_fields sizeof (f :: fs) s = read_fields sizeof fs (read_hparam sizeof f s).2.
Proof. by rewrite read_fields_cons. Qed.

Lemma read_fields_returns fs : ∀ s, (read_fields sizeof fs s).1 = Ok tt.
Proof.
  induction fs as [|f fs IH]; intros s; [done|].
  rewrite read_fields_step. apply IH.
Qed.

Lemma offset_in_bound fs f :
  f ∈ fs → offset_in sizeof fs f + sizeof f ≤ sum_list (sizeof <$> fs).
Proof.
  induction fs as [|g fs IH]; intros Hf; [by apply elem_of_nil in Hf|].
  change (sum_list (sizeof <$> g :: fs)) with (sizeof g + sum_list (sizeof <$> fs)).
  cbn [offset_in]. destruct (decide (g = f)) as [->|Hne]; [lia|].
  apply elem_of_cons in Hf as [->|Hf]; [done|]. specialize (IH Hf). lia.
Qed.

(** What a pass over the fields [fs] leaves in each field: the bytes the
    stream could deliver at the offset of the field, over its old value. *)
Lemma read_fields_field fs :
  NoDup fs → ∀ m fin f,
  hparams (read_fields sizeof fs (m, fin)).2.1 f
  = if decide (f ∈ fs)
    then overwrite (take (sizeof f) (drop (offset_in sizeof fs f) (avail fin)))
                   (hparams m f)
    else hparams m f.
Proof.
  induction 1 as [|g fs Hg Hnd IH]; intros m fin f.
  - rewrite decide_False by apply not_elem_of_nil. done.
  - rewrite read_fields_step.
    change (read_hparam sizeof g (m, fin)).2
      with (set_hparams (<[g := read_object (sizeof g) (hparams m g) fin]> (hparams m)) m,
            read_stream (sizeof g) fin).
    rewrite IH. unfold set_hparams. cbn [hparams offset_in].
    rewrite avail_read_stream, drop_drop.
    destruct (decide (g = f)) as [->|Hne].
    + rewrite (decide_False (P := f ∈ fs)) by done.
      rewrite (decide_True (P := f ∈ f :: fs)) by left.
      by rewrite fn_lookup_insert, read_object_overwrite, drop_0.
    + rewrite fn_lookup_insert_ne by done.
      destruct (decide (f ∈ fs)) as [Hin|Hout].
      * by rewrite (decide_True (P := f ∈ g :: fs)) by (by right).
      * rewrite (decide_False (P := f ∈ g :: fs)); [done|].
        by intros [->|?]%elem_of_cons.
Qed.

Lemma load_hparams_field m fin f :
  hparams (load_hparams sizeof (m, fin)).2.1 f
  = overwrite (take (sizeof f) (drop (field_offset sizeof f) (avail fin))) (hparams m f).
Proof.
  rewrite load_hparams_read_fields.
  rewrite (read_fields_field field_order field_order_NoDup).
  by rewrite decide_True by apply field_order_complete.
Qed.

Lemma field_offset_bound f : field_offset sizeof f + sizeof f ≤ hparams_size sizeof.
Proof. apply offset_in_bound, field_order_complete. Qed.

(** X1. [load_hparams] writes the hyperparameter table and nothing else:
    whatever the stream holds, the architecture struct, the arena and the
    tensor table of the model are left as they were, and every field of the
    table keeps the width of its type. *)
Theorem load_hparams_frame (m : fairseq2_model) (fin : ifstream) :
  wf_hparams sizeof (hparams m) →
  let m' := (load_hparams sizeof (m, fin)).2.1 in
  arch m' = arch m ∧ ctx m' = ctx m ∧ tensors m' = tensors m ∧
  wf_hparams sizeof (hparams m').
Proof.
  intros Hwf m'.
  destruct (load_hparams_spec sizeof m fin Hwf)
    as (m1 & fin1 & Hrun & Ha & Hc & Ht & Hwf1 & _).
  unfold m'. rewrite Hrun. cbn [fst snd].
  split; [exact Ha|]. split; [exact Hc|]. split; [exact Ht|exact Hwf1].
Qed.

(** X2. Position defines meaning: every field that lies wholly inside what a
    good stream holds is read from its own offset in the section, the sum of
    the widths of the fields read before it, whatever the other bytes of the
    stream are. On a stream that holds the whole section this is every
    field. *)
Theorem load_hparams_field_at_offset (m : fairseq2_model) (bs : list byte) (f : hfield) :
  wf_hparams sizeof (hparams m) →
  field_offset sizeof f + sizeof f ≤ length bs →
  hparams (load_hparams sizeof (m, open_stream bs)).2.1 f
  = take (sizeof f) (drop (field_offset sizeof f) bs).
Proof.
  intros Hwf Hlen. rewrite load_hparams_field, avail_open_stream.
  unfold overwrite. rewrite (drop_ge (hparams m f)), app_nil_r; [done|].
  rewrite length_take, length_drop, Hwf. lia.
Qed.

(** X3. A field that starts at or after the end of the stream keeps the
    value it had before the call: after a truncated load the tail of the
    table is the old table. *)
Theorem load_hparams_field_past_end (m : fairseq2_model) (bs : list byte) (f : hfield) :
  length bs ≤ field_offset sizeof f →
  hparams (load_hparams sizeof (m, open_stream bs)).2.1 f = hparams m f.
Proof.
  intros Hlen. rewrite load_hparams_field, avail_open_stream.
  by rewrite drop_ge, take_nil by done.
Qed.

Lemma read_stream_not_good n fin :
  good fin = false → read_stream n fin = set_failbit fin.
Proof. unfold read_stream. by intros ->. Qed.

Lemma good_set_failbit fin : good (set_failbit fin) = false.
Proof. unfold good, set_failbit. simpl. by rewrite andb_false_r. Qed.

Lemma read_fields_not_good fs :
  ∀ m fin, good fin = false →
  (read_fields sizeof fs (m, fin)).2.2
  = match fs with [] => fin | _ :: _ => set_failbit fin end.
Proof.
  induction fs as [|f fs IH]; intros m fin Hbad; [done|].
  rewrite read_fields_step.
  change (read_hparam sizeof f (m, fin)).2
    with (set_hparams (<[f := read_object (sizeof f) (hparams m f) fin]> (hparams m)) m,
          read_stream (sizeof f) fin).
  rewrite read_stream_not_good by done.
  rewrite IH by apply good_set_failbit.
  destruct fs; [done|]. by destruct fin.
Qed.

(** X4. On a stream that is not good when the call starts, [load_hparams]
    extracts nothing: it returns normally, every field of the table keeps its
    value, the bytes of the stream stay where they were, and the only change
    is [failbit], which is set. *)
Theorem load_hparams_on_failed_stream (m : fairseq2_model) (fin : ifstream) :
  good fin = false →
  (load_hparams sizeof (m, fin)).1 = Ok tt ∧
  (∀ f, hparams (load_hparams sizeof (m, fin)).2.1 f = hparams m f) ∧
  (load_hparams sizeof (m, fin)).2.2 = set_failbit fin.
Proof.
  intros Hbad. split; [|split].
  - rewrite load_hparams_read_fields. apply read_fields_returns.
  - intros f. rewrite load_hparams_field. unfold avail. rewrite Hbad.
    by rewrite drop_nil, take_nil.
  - rewrite load_hparams_read_fields.
    by rewrite (read_fields_not_good field_order m fin Hbad).
Qed.

End load_hparams_layout.

(** * Further properties of [compute_context_size] *)

Section pointer_bytes.

Lemma byte_of_Z_value z : Z.of_N (Byte.to_N (byte_of_Z z)) = (z mod 256)%Z.
Proof.
  unfold byte_of_Z.
  assert (0 ≤ z mod 256 < 256)%Z as Hr by (apply Z.mod_pos_bound; lia).
  pose proof (Byte.to_of_N_option_map (Z.to_N (z mod 256))) as H.
  rewrite (proj2 (N.leb_le _ 255)) in H by lia.
  destruct (Byte.of_N (Z.to_N (z mod 256))) as [b|]; [|discriminate H].
  simpl in H. injection H as H. simpl. rewrite H. lia.
Qed.

Lemma length_le_bytes n : ∀ z, length (le_bytes n z) = n.
Proof. induction n as [|n IH]; intros z; [done|]. simpl. by rewrite IH. Qed.

Lemma le_unsigned_le_bytes n :
  ∀ z, le_unsigned (le_bytes n z) = (z mod 256 ^ Z.of_nat n)%Z.
Proof.
  induction n as [|n IH]; intros z.
  - simpl. by rewrite Z.mod_1_r.
  - cbn [le_bytes le_unsigned]. rewrite byte_of_Z_value, IH.
    rewrite Nat2Z.inj_succ, Z.pow_succ_r by lia.
    rewrite Z.rem_mul_r by lia. done.
Qed.

(** Decoding the object representation of an integer gives the integer
    back, as long as it fits the width. *)
Lemma le_signed_le_bytes n z :
  (- 2 ^ (8 * Z.of_nat n - 1) ≤ z < 2 ^ (8 * Z.of_nat n - 1))%Z → 0 < n →
  le_signed (le_bytes n z) = z.
Proof.
  intros Hz Hn. unfold le_signed.
  rewrite le_unsigned_le_bytes, length_le_bytes.
  assert (256 ^ Z.of_nat n = 2 ^ (8 * Z.of_nat n))%Z as ->.
  { by rewrite Z.pow_mul_r by lia. }
  assert (2 ^ (8 * Z.of_nat n) = 2 * 2 ^ (8 * Z.of_nat n - 1))%Z as Hp.
  { rewrite <- Z.pow_succ_r by lia. f_equal. lia. }
  set (w := (8 * Z.of_nat n)%Z) in *. set (half := (2 ^ (w - 1))%Z) in *.
  rewrite Hp. destruct (decide (0 ≤ z)%Z).
  - rewrite Z.mod_small by lia. rewrite (proj2 (Z.ltb_lt _ _)) by lia. done.
  - rewrite <- (Z.mod_add z 1) by lia. rewrite Z.mod_small by lia.
    rewrite (proj2 (Z.ltb_ge _ _)) by lia. lia.
Qed.

Variable sizeof : hfield → nat.

(** X5. With a 64-bit [model_dim], [compute_context_size] returns 102400
    times the value of the pointer it is given, whatever the table behind the
    pointer and whatever the memory next to the parameter hold; and as soon as
    that product leaves the range of a signed 64-bit integer, that is from the
    address 2^63 / 102400 on, the multiplication overflows and the behaviour
    is undefined. *)
Theorem compute_context_size_of_pointer (raw_hparams : Z) (frame : list byte) :
  sizeof model_dim = 8 →
  (0 ≤ raw_hparams < 2 ^ 63)%Z →
  compute_context_size sizeof raw_hparams frame
  = if (raw_hparams * 102400 <? 2 ^ 63)%Z
    then Ok (raw_hparams * 102400)%Z
    else Undefined.
Proof.
  intros Hs Hp. unfold compute_context_size. rewrite Hs.
  rewrite take_app_length' by (by rewrite length_le_bytes).
  rewrite le_signed_le_bytes by (done || (unfold sizeof_pointer; lia)).
  unfold fits_signed, to_size_t, SIZE_WIDTH.
  change (8 * Z.of_nat (8 `max` 4))%Z with 64%Z.
  change (2 ^ (64 - 1))%Z with 9223372036854775808%Z.
  change (2 ^ 64)%Z with 18446744073709551616%Z.
  change (2 ^ 63)%Z with 9223372036854775808%Z in *.
  destruct (Z.ltb_spec (raw_hparams * 102400) 9223372036854775808).
  - rewrite !(proj2 (Z.leb_le _ _)) by lia.
    rewrite !(proj2 (Z.ltb_lt _ _)) by lia. simpl.
    rewrite Z.mod_small by lia. f_equal. lia.
  - rewrite !(proj2 (Z.leb_le _ _)) by lia. simpl.
    destruct (Z.ltb_spec (raw_hparams * 1024) 9223372036854775808); [|done].
    by rewrite (proj2 (Z.ltb_ge _ _)) by lia.
Qed.

End pointer_bytes.

(** * Further properties of [tensors_alloc] *)

Section tensors_alloc_edges.

Implicit Types (m : fairseq2_model).

(** X6. A negative decoder layer count makes the construction of the vector
    throw [std::length_error] before anything else happens: the model is left
    exactly as it was, nothing allocated, nothing registered. *)
Theorem tensors_alloc_negative_layer_count (m : fairseq2_model) :
  (le_signed (hparams m nllb_config__num_decoder_layers) < 0)%Z →
  tensors_alloc m = (Throw length_error, m).
Proof.
  intros Hn. rewrite tensors_alloc_run.
  destruct (tensors_alloc_layers m) as [r m'] eqn:E.
  apply tensors_alloc_layers_frame in E as (_ & _ & Hneg & _).
  destruct (Hneg (or_introl Hn)) as [-> ->]. done.
Qed.

(** X7. With a layer count of zero the pass returns normally without
    allocating or registering anything, whatever the model dimension and the
    arena are; its only effect is to replace the decoder's vector of layers,
    whatever it held, by an empty one. *)
Theorem tensors_alloc_no_layers (m : fairseq2_model) :
  le_signed (hparams m nllb_config__num_decoder_layers) = 0%Z →
  tensors_alloc m = (Ok tt, set_layers [] m).
Proof.
  intros Hn.
  unfold tensors_alloc, tensors_alloc_layers, bind, get, modify, vector_new.
  rewrite Hn. rewrite vector_length_ok_int by (unfold INT_MAX; lia). done.
Qed.

(** X8. Whatever the outcome of the pass, [tensors_alloc] never changes the
    hyperparameter table (it works on a copy), and the decoder's vector of
    layers is either what it was before the call (the construction of the new
    vector threw) or as many default-constructed layers as the layer count.
    For a layer count between 0 and [INT_MAX] it is the latter, also when the
    pass fails midway: nothing is rolled back. *)
Theorem tensors_alloc_keeps_hparams (m : fairseq2_model) :
  let m' := (tensors_alloc m).2 in
  let n := le_signed (hparams m nllb_config__num_decoder_layers) in
  hparams m' = hparams m ∧
  (layers (text_decoder (arch m')) = layers (text_decoder (arch m)) ∨
   layers (text_decoder (arch m')) = replicate (Z.to_nat n) default_layer) ∧
  ((0 ≤ n ≤ INT_MAX)%Z →
   layers (text_decoder (arch m')) = replicate (Z.to_nat n) default_layer).
Proof.
  intros m' n. unfold m'. rewrite tensors_alloc_run. cbn [snd].
  destruct (tensors_alloc_layers m) as [r m1] eqn:E. cbn [snd].
  apply tensors_alloc_layers_frame in E as (Hh & _ & Hthrow & Harch).
  fold n in Hthrow, Harch.
  split; [exact Hh|]. split.
  - destruct (decide (0 ≤ n ≤ layers_max_size)%Z) as [Hn|Hn].
    + right. by apply Harch.
    + left. destruct Hthrow as [_ ->]; [lia|done].
  - intros Hn. apply Harch. pose proof INT_MAX_le_layers_max_size. lia.
Qed.

(** X9. The names of the pass never collide, for any layer count and any
    pair of indices: two self-attention names, or two normalization names,
    are equal only for equal indices, a self-attention name is never a
    normalization name, and the list of names of a pass has no duplicate. *)
Theorem layer_names_never_collide (n i j : Z) :
  NoDup (registered_names n) ∧
  (self_attn_name i = self_attn_name j ↔ i = j) ∧
  (self_attn_norm_name i = self_attn_norm_name j ↔ i = j) ∧
  self_attn_name i ≠ self_attn_norm_name j.
Proof.
  split; [apply names_from_NoDup|].
  split; [split; [apply self_attn_name_inj|by intros ->]|].
  split; [split; [apply self_attn_norm_name_inj|by intros ->]|].
  apply self_attn_name_ne_norm.
Qed.

Local Abbreviation chars := String.list_ascii_of_string.

Lemma pretty_N_go_no_dot (x : N) :
  ∀ s, "."%char ∉ chars s → "."%char ∉ chars (pretty_N_go x s).
Proof.
  induction (N.lt_wf_0 x) as [x _ IH]; intros s Hs.
  destruct (decide (x = 0)%N) as [->|Hx]; [by rewrite pretty_N_go_0|].
  rewrite pretty_N_go_step by lia. apply IH.
  - apply N.div_lt; lia.
  - change (chars (String (pretty_N_char (x `mod` 10)) s))
      with (pretty_N_char (x `mod` 10) :: chars s).
    apply not_elem_of_cons. split; [|done].
    unfold pretty_N_char. repeat case_match; discriminate.
Qed.

Lemma pretty_N_no_dot (x : N) : "."%char ∉ chars (pretty x).
Proof.
  unfold pretty, pretty_N. case_decide.
  - simpl. by intros [?|?%elem_of_nil]%elem_of_cons.
  - apply pretty_N_go_no_dot. simpl. apply not_elem_of_nil.
Qed.

(** The decimal form of a layer index has no dot in it. *)
Lemma to_string_no_dot (i : Z) : "."%char ∉ chars (to_string i).
Proof.
  unfold to_string, pretty, pretty_Z. destruct i as [|p|p].
  - simpl. by intros [?|?%elem_of_nil]%elem_of_cons.
  - apply pretty_N_no_dot.
  - rewrite chars_app. simpl. apply not_elem_of_cons. split; [done|].
    apply pretty_N_no_dot.
Qed.

Lemma dotted_names_not_layer_names i j :
  (dotted_self_attn_name i ∉ layer_names j) ∧
  (dotted_self_attn_norm_name i ∉ layer_names j).
Proof.
  assert (∀ t u : string, "."%char ∉ chars u →
            ("text_decoder.layers." +:+ to_string i) +:+ String "." t
            ≠ ("text_decoder.layers." +:+ to_string j) +:+ u) as Hne.
  { intros t u Hu E. apply (f_equal chars) in E. rewrite !chars_app in E.
    rewrite <- !app_assoc in E. apply app_inv_head in E.
    assert ("."%char ∈ chars (to_string j) ++ chars u) as Hin.
    { rewrite <- E. apply elem_of_app. right. by left. }
    apply elem_of_app in Hin as [Hin|Hin]; [by apply to_string_no_dot in Hin|done]. }
  assert (("."%char ∉ chars "self_attn") ∧ ("."%char ∉ chars "self_attn_norm")) as [H1 H2].
  { split; simpl; rewrite !not_elem_of_cons; repeat split; try done;
      apply not_elem_of_nil. }
  unfold layer_names, dotted_self_attn_name, dotted_self_attn_norm_name,
    self_attn_name, self_attn_norm_name.
  split; intros [E|[E|E%elem_of_nil]%elem_of_cons]%elem_of_cons; try done;
    by eapply Hne in E.
Qed.

(** X10. No name with a dot between the layer index and the suffix is ever
    registered: for every model, every layer index and every outcome of the
    pass, the entries [text_decoder.layers.<i>.self_attn] and
    [text_decoder.layers.<i>.self_attn_norm] of the tensor table are what they
    were before the call. *)
Theorem tensors_alloc_registers_no_dotted_name (m : fairseq2_model) (i : Z) :
  let m' := (tensors_alloc m).2 in
  tensors m' !! dotted_self_attn_name i = tensors m !! dotted_self_attn_name i ∧
  tensors m' !! dotted_self_attn_norm_name i = tensors m !! dotted_self_attn_norm_name i.
Proof.
  intros m'. unfold m'. rewrite tensors_alloc_run. cbn [snd].
  destruct (tensors_alloc_layers m) as [r m1] eqn:E. cbn [snd].
  apply tensors_alloc_layers_frame in E as (_ & Hframe & _).
  split; apply Hframe; unfold registered_names; rewrite elem_of_names_from;
    intros (j & _ & Hin); by apply (dotted_names_not_layer_names i j) in Hin.
Qed.

(** *** When the arena is too small *)




End tensors_alloc_edges.

(** * [load_hparams] followed by [tensors_alloc] *)

Section pipeline.

Variable sizeof : hfield → nat.

Lemma load_hparams_reads_back (h : unity_hparams) (m : fairseq2_model) (rest : list byte) :
  wf_hparams sizeof h →
  wf_hparams sizeof (hparams m) →
  ∃ m', load_hparams sizeof (m, open_stream (serialize_hparams h ++ rest))
        = (Ok tt, (m', open_stream rest)) ∧
        ctx m' = ctx m ∧ tensors m' = tensors m ∧
        ∀ f, hparams m' f = h f.
Proof.
  intros Hh Hm.
  destruct (load_hparams_spec sizeof m (open_stream (serialize_hparams h ++ rest)) Hm)
    as (m' & fin' & Hrun & _ & Hc & Ht & Hwf & Hcat & Hav & Hgood & _).
  rewrite avail_open_stream in Hcat, Hav, Hgood.
  pose proof (length_serialize_hparams sizeof h Hh) as Lh.
  pose proof (length_serialize_hparams sizeof (hparams m) Hm) as Lm.
  rewrite take_app_length' in Hcat by done.
  rewrite drop_app_length' in Hav by done.
  unfold overwrite in Hcat. rewrite drop_ge, app_nil_r in Hcat by lia.
  rewrite bool_decide_eq_true_2 in Hgood by (rewrite length_app; lia).
  exists m'. split; [|split; [exact Hc|split; [exact Ht|]]].
  - rewrite Hrun. do 2 f_equal. by apply open_stream_good.
  - intros f. apply (concat_fields_inj (hparams m') h field_order).
    + intros g _. by rewrite Hwf, Hh.
    + exact Hcat.
    + apply field_order_complete.
Qed.

(** X12. The two steps compose: after [load_hparams] has read a serialized
    table from a good stream, [tensors_alloc] on the model it filled sees the
    layer count and the model dimension that were written (with a layer count
    in the range of the loop counter, a non-negative dimension and room in
    the arena) and completes, registering the names of that many layers. *)
Theorem load_hparams_then_tensors_alloc
    (h : unity_hparams) (m : fairseq2_model) (rest : list byte) :
  wf_hparams sizeof h →
  wf_hparams sizeof (hparams m) →
  (0 ≤ le_signed (h nllb_config__num_decoder_layers) ≤ INT_MAX)%Z →
  (0 ≤ le_signed (h nllb_config__model_dim))%Z →
  (used (ctx m) + requested_bytes h ≤ mem_size (ctx m))%Z →
  ∃ m1 m2,
    load_hparams sizeof (m, open_stream (serialize_hparams h ++ rest))
    = (Ok tt, (m1, open_stream rest)) ∧
    tensors_alloc m1 = (Ok tt, m2) ∧
    dom (tensors m2)
    = dom (tensors m)
      ∪ list_to_set (registered_names (le_signed (h nllb_config__num_decoder_layers))).
Proof.
  intros Hh Hm Hn Hd Hroom. unfold requested_bytes in Hroom.
  destruct (load_hparams_reads_back h m rest Hh Hm) as (m1 & Hrun & Hc & Ht & Hf).
  destruct (tensors_alloc_layers_ok m1) as (ls & m2 & E & _ & _ & Hdom).
  { by rewrite Hf. }
  { by rewrite Hf. }
  { by rewrite !Hf, Hc. }
  rewrite Hf, Ht in Hdom.
  exists m1, m2. split; [exact Hrun|].
  split; [by rewrite tensors_alloc_run, E|exact Hdom].
Qed.

End pipeline.

(** * The further properties on the example inputs *)

Lemma load_hparams_frame_witness :
  let m' := (load_hparams sizeof_q (new_model example_hparams 0, truncated_stream)).2.1 in
  arch m' = arch (new_model example_hparams 0) ∧
  ctx m' = ctx (new_model example_hparams 0) ∧
  tensors m' = tensors (new_model example_hparams 0) ∧
  wf_hparams sizeof_q (hparams m').
Proof.
  apply (load_hparams_frame sizeof_q (new_model example_hparams 0) truncated_stream).
  intros f. destruct f; reflexivity.
Defined.

Lemma load_hparams_field_at_offset_witness :
  hparams (load_hparams sizeof_q
             (new_model (const_hparams 0) 0,
              open_stream (serialize_hparams example_hparams))).2.1
    nllb_config__model_dim
  = take (sizeof_q nllb_config__model_dim)
      (drop (field_offset sizeof_q nllb_config__model_dim)
         (serialize_hparams example_hparams)).
Proof.
  apply (load_hparams_field_at_offset sizeof_q (new_model (const_hparams 0) 0)
           (serialize_hparams example_hparams) nllb_config__model_dim).
  - intros f. reflexivity.
  - vm_compute. lia.
Defined.

Lemma load_hparams_field_past_end_witness :
  hparams (load_hparams sizeof_q
             (new_model example_hparams 0,
              open_stream (rdbuf truncated_stream))).2.1
    nllb_config__num_decoder_layers
  = hparams (new_model example_hparams 0) nllb_config__num_decoder_layers.
Proof.
  apply (load_hparams_field_past_end sizeof_q (new_model example_hparams 0)
           (rdbuf truncated_stream) nllb_config__num_decoder_layers).
  vm_compute. lia.
Defined.

Lemma load_hparams_on_failed_stream_witness :
  (load_hparams sizeof_q (new_model (const_hparams 0) 0, failed_stream)).1 = Ok tt ∧
  (∀ f, hparams (load_hparams sizeof_q (new_model (const_hparams 0) 0, failed_stream)).2.1 f
        = hparams (new_model (const_hparams 0) 0) f) ∧
  (load_hparams sizeof_q (new_model (const_hparams 0) 0, failed_stream)).2.2
  = set_failbit failed_stream.
Proof.
  apply (load_hparams_on_failed_stream sizeof_q (new_model (const_hparams 0) 0)
           failed_stream).
  reflexivity.
Defined.

Lemma compute_context_size_of_pointer_witness :
  compute_context_size sizeof_q address_a []
  = if (address_a * 102400 <? 2 ^ 63)%Z
    then Ok (address_a * 102400)%Z
    else Undefined.
Proof.
  apply (compute_context_size_of_pointer sizeof_q address_a []).
  - reflexivity.
  - vm_compute. split; [intros E; discriminate E|reflexivity].
Defined.

Lemma tensors_alloc_negative_layer_count_witness :
  tensors_alloc (new_model negative_hparams (4 * 1024 * 1024))
  = (Throw length_error, new_model negative_hparams (4 * 1024 * 1024)).
Proof.
  apply (tensors_alloc_negative_layer_count (new_model negative_hparams (4 * 1024 * 1024))).
  vm_compute. reflexivity.
Defined.

Lemma tensors_alloc_no_layers_witness :
  tensors_alloc stale_model = (Ok tt, set_layers [] stale_model).
Proof.
  apply (tensors_alloc_no_layers stale_model).
  vm_compute. reflexivity.
Defined.


Lemma load_hparams_then_tensors_alloc_witness :
  ∃ m1 m2,
    load_hparams sizeof_q
      (new_model (const_hparams 0) (4 * 1024 * 1024),
       open_stream (serialize_hparams example_hparams ++ [Byte.x2a]))
    = (Ok tt, (m1, open_stream [Byte.x2a])) ∧
    tensors_alloc m1 = (Ok tt, m2) ∧
    dom (tensors m2)
    = dom (tensors (new_model (const_hparams 0) (4 * 1024 * 1024)))
      ∪ list_to_set
          (registered_names (le_signed (example_hparams nllb_config__num_decoder_layers))).
Proof.
  apply (load_hparams_then_tensors_alloc sizeof_q example_hparams
           (new_model (const_hparams 0) (4 * 1024 * 1024)) [Byte.x2a]).
  - intros f. destruct f; reflexivity.
  - intros f. reflexivity.
  - vm_compute. split; intros E; discriminate E.
  - vm_compute. intros E; discriminate E.
  - vm_compute. intros E; discriminate E.
Defined.
